(** * voice.py: pattern registry, matchers, dispatch, history and replay

    A shallow embedding of [src/voice.py].  Python strings are Rocq strings
    of 8-bit characters (read as code points 0..255); the module-level
    dictionary [_action_registry] is an insertion-ordered association list
    living in a heap of dictionary objects; instances are heap objects too,
    so that aliasing of the registry between instances is explicit.
    Exceptions are modelled by an [outcome] type and effects by a small
    state-and-exception monad over the interpreter state [world]. *)

From Stdlib Require Import List String Ascii Bool Arith Lia.
From Stdlib Require Import DecimalString.
Import ListNotations.
Open Scope string_scope.
Open Scope list_scope.

(** ** Python strings *)

Module Str.

(** [str.isspace] on one character, restricted to code points below 256:
    TAB, LF, VT, FF, CR, the separators 0x1c..0x1f, SPACE, NEL and NBSP. *)
Definition is_space (c : ascii) : bool :=
  let n := nat_of_ascii c in
  (Nat.leb 9 n && Nat.leb n 13) || (Nat.leb 28 n && Nat.leb n 32)
  || Nat.eqb n 133 || Nat.eqb n 160.

(** [s.startswith(p)] *)
Fixpoint startswith (s p : string) {struct p} : bool :=
  match p with
  | EmptyString => true
  | String b p' =>
      match s with
      | EmptyString => false
      | String a s' => Ascii.eqb a b && startswith s' p'
      end
  end.

(** [w in s] for two strings: [w] occurs at some position of [s]. *)
Fixpoint contains (s w : string) : bool :=
  startswith s w ||
  match s with
  | EmptyString => false
  | String _ s' => contains s' w
  end.

(** [s.split()]: the maximal runs of non-whitespace characters, in order.
    Leading, trailing and repeated whitespace produce no empty token. *)
Fixpoint split (s : string) : list string :=
  match s with
  | EmptyString => []
  | String c s' =>
      if is_space c then split s'
      else
        match s' with
        | EmptyString => [String c EmptyString]
        | String c' _ =>
            if is_space c' then String c EmptyString :: split s'
            else
              match split s' with
              | w :: ws => String c w :: ws
              | [] => [String c EmptyString]
              end
        end
  end.

(** The characters of a string, for statements about its content. *)
Fixpoint chars (s : string) : list ascii :=
  match s with
  | EmptyString => []
  | String c s' => c :: chars s'
  end.

End Str.

(** ** Exceptions and results *)

Inductive exn : Type :=
| KeyError (key : string)
| TypeError
| AttributeError (name : string)
| ReError                       (* re.error: the pattern does not compile *)
| FileNotFoundError (filename : string).

Inductive outcome (A : Type) : Type :=
| Return (a : A)
| Raise (e : exn).
Arguments Return {A} a.
Arguments Raise {A} e.

(** ** Argument values *)

(** The values a captured argument can take: [match.groupdict()] maps each
    group name to the matched text, or to [None] for a group that took no
    part in the match.  JSON stores both without loss. *)
Inductive value : Type :=
| VNone
| VStr (s : string).

(** [str(v)], which is also how an f-string renders [v]. *)
Definition str (v : value) : string :=
  match v with
  | VNone => "None"
  | VStr s => s
  end.

Definition kwargs := list (string * value).

(** ** The regular-expression library

    [re] is not part of the repository.  The code uses it through
    [re.search(pattern, command)], which compiles the pattern (raising
    [re.error] when it is malformed) and then scans the candidate.  The
    development is parametric in the engine; [PyRe] below provides a
    reference engine for a fragment of the syntax, used on the concrete
    patterns of the program. *)

(** [match.groupdict()]: group name |-> captured value. *)
Definition groupdict := kwargs.

Class Regex : Type := {
  compiled : Type;
  re_compile : string -> option compiled;          (* None: re.error *)
  search_compiled : compiled -> string -> option groupdict  (* None: no match *)
}.

Definition re_search {E : Regex} (pattern command : string)
  : outcome (option groupdict) :=
  match re_compile pattern with
  | None => Raise ReError
  | Some r => Return (search_compiled r command)
  end.

(** Truth value of what [re.search] returns: a match object is true,
    [None] is false. *)
Definition truthy {A : Type} (m : option A) : bool :=
  match m with Some _ => true | None => false end.

(** ** Matcher kinds *)

Inductive MatchType : Type :=
| ALL_KEYWORDS
| DYNAMIC
| STARTS_WITH
| STATIC
| SUBSTRING.

Definition MatchType_eqb (a b : MatchType) : bool :=
  match a, b with
  | ALL_KEYWORDS, ALL_KEYWORDS
  | DYNAMIC, DYNAMIC
  | STARTS_WITH, STARTS_WITH
  | STATIC, STATIC
  | SUBSTRING, SUBSTRING => true
  | _, _ => false
  end.

Section Matching.
Context {E : Regex}.

(** [MatchAndPerformMixin.is_match], branch by branch.  The first and
    third tests are conjunctions, so a kind whose test fails falls
    through to the final [return False]; [re.search] is only evaluated
    for [SUBSTRING] and may raise. *)
Definition is_match (command pattern : string) (match_type : MatchType)
  : outcome bool :=
  let otherwise :=
    if MatchType_eqb match_type ALL_KEYWORDS then
      Return (forallb (fun word => Str.contains command word)
                      (Str.split pattern))
    else if MatchType_eqb match_type STARTS_WITH
              && Str.startswith command pattern then
      Return true
    else
      Return false in
  if MatchType_eqb match_type SUBSTRING then
    match re_search pattern command with
    | Raise e => Raise e
    | Return m => if truthy m then Return true else otherwise
    end
  else otherwise.

End Matching.

(** ** Dictionaries

    A Python [dict] keyed by strings: an association list in insertion
    order.  Assigning to a key that is present replaces the value where the
    key already stands; a new key goes to the end. *)

Fixpoint dict_get {V : Type} (k : string) (d : list (string * V)) : option V :=
  match d with
  | [] => None
  | (k', v) :: d' => if String.eqb k k' then Some v else dict_get k d'
  end.

Fixpoint dict_set {V : Type} (k : string) (v : V) (d : list (string * V))
  : list (string * V) :=
  match d with
  | [] => [(k, v)]
  | (k', v') :: d' =>
      if String.eqb k k' then (k', v) :: d' else (k', v') :: dict_set k v d'
  end.

Definition keys {V : Type} (d : list (string * V)) : list string :=
  map fst d.

(** ** Timestamps and history records *)

Record datetime : Type := {
  year : nat; month : nat; day : nat;
  hour : nat; minute : nat; second : nat; microsecond : nat
}.

Fixpoint zeros (n : nat) : string :=
  match n with 0 => "" | S n' => String "0" (zeros n') end.

(** Decimal rendering of [n] on at least [width] digits. *)
Definition pad (width n : nat) : string :=
  let digits := NilEmpty.string_of_uint (Nat.to_uint n) in
  zeros (width - String.length digits) ++ digits.

(** [str(d)] for a naive [datetime]: the ISO form with a space between
    date and time, the fraction being left out when it is zero. *)
Definition datetime_str (d : datetime) : string :=
  pad 4 (year d) ++ "-" ++ pad 2 (month d) ++ "-" ++ pad 2 (day d) ++ " "
  ++ pad 2 (hour d) ++ ":" ++ pad 2 (minute d) ++ ":" ++ pad 2 (second d)
  ++ (if Nat.eqb (microsecond d) 0 then "" else "." ++ pad 6 (microsecond d)).

(** The dataclass [CommandHistory]. *)
Record CommandHistory : Type := {
  action : string;
  timestamp : datetime;
  args : kwargs
}.

(** One element of the array [save_history] writes: [asdict(command)] as
    [json.dump(..., default=str)] stores it, that is the three fields in
    declaration order, the timestamp (not serialisable by itself) going
    through [str].  A document is the JSON value itself; its textual layout
    ([indent=4]) belongs to the [json] library. *)
Record saved : Type := {
  saved_action : string;
  saved_timestamp : string;
  saved_args : kwargs
}.

Definition asdict (command : CommandHistory) : saved :=
  {| saved_action := action command;
     saved_timestamp := datetime_str (timestamp command);
     saved_args := args command |}.

Definition document := list saved.

(** ** Functions, objects and the interpreter state *)

Definition addr := nat.

(** A registered function: its [__name__] and what a call
    [func(self, **kwargs)] does.  A call whose keyword arguments do not fit
    the signature raises [TypeError]; that is part of [fbody].  The
    functions the module registers build a string and do nothing else, and
    functions are modelled as such: a call returns or raises and leaves the
    state as it is. *)
Record func : Type := {
  fname : string;
  fbody : addr -> kwargs -> outcome string
}.

(** The registry dictionary: pattern |-> (function, matcher kind). *)
Definition registry := list (string * (func * MatchType)).

(** An instance of a [VoiceCommandMixin] subclass. *)
Record instance : Type := {
  cls : string;
  action_registry : addr;          (* a reference to a dictionary object *)
  history : list CommandHistory
}.

Definition document_store := list (string * document).

Record call_event : Type := {
  callee : func;
  receiver : addr;
  passed : kwargs
}.

Record world : Type := {
  dicts : list registry;           (* dictionary objects, by address *)
  objs : list instance;            (* instances, by address *)
  files : document_store;          (* the documents of the file system *)
  clock : nat -> datetime;         (* successive readings of datetime.now() *)
  ticks : nat;                     (* how many readings were taken *)
  calls : list call_event          (* the function calls made so far *)
}.

Definition set_dicts (w : world) (x : list registry) : world :=
  {| dicts := x; objs := objs w; files := files w; clock := clock w;
     ticks := ticks w; calls := calls w |}.
Definition set_objs (w : world) (x : list instance) : world :=
  {| dicts := dicts w; objs := x; files := files w; clock := clock w;
     ticks := ticks w; calls := calls w |}.
Definition set_files (w : world) (x : document_store) : world :=
  {| dicts := dicts w; objs := objs w; files := x; clock := clock w;
     ticks := ticks w; calls := calls w |}.
Definition set_ticks (w : world) (x : nat) : world :=
  {| dicts := dicts w; objs := objs w; files := files w; clock := clock w;
     ticks := x; calls := calls w |}.
Definition set_calls (w : world) (x : list call_event) : world :=
  {| dicts := dicts w; objs := objs w; files := files w; clock := clock w;
     ticks := ticks w; calls := x |}.

(** Replacing the element at a position of a list (nothing happens out of
    range; the code never writes through a dangling address). *)
Fixpoint list_set {A : Type} (n : nat) (x : A) (l : list A) : list A :=
  match l, n with
  | [], _ => []
  | _ :: l', 0 => x :: l'
  | a :: l', S n' => a :: list_set n' x l'
  end.

(** ** The state-and-exception monad *)

Definition M (A : Type) : Type := world -> outcome A * world.

Definition ret {A : Type} (a : A) : M A := fun w => (Return a, w).
Definition raise {A : Type} (e : exn) : M A := fun w => (Raise e, w).
Definition lift {A : Type} (o : outcome A) : M A := fun w => (o, w).
Definition bind {A B : Type} (m : M A) (k : A -> M B) : M B :=
  fun w =>
    match m w with
    | (Return a, w') => k a w'
    | (Raise e, w') => (Raise e, w')
    end.

Declare Scope py_scope.
Delimit Scope py_scope with py.
Notation "x <- m ;; k" := (bind m (fun x => k))
  (at level 100, m at next level, right associativity) : py_scope.
Notation "m ;;; k" := (bind m (fun _ => k))
  (at level 100, right associativity) : py_scope.
Open Scope py_scope.

(** ** The program *)

(** The module-level name [_action_registry]: it is bound once, by
    [_action_registry = {}], to the first dictionary object and never
    rebound. *)
Definition _action_registry : addr := 0.

(** The dictionary an address refers to (an address that refers to nothing
    does not occur in a running program). *)
Definition deref (a : addr) (w : world) : registry := nth a (dicts w) [].

(** The state right after [_action_registry = {}]. *)
Definition fresh_world (clk : nat -> datetime) : world :=
  {| dicts := [[]]; objs := []; files := []; clock := clk; ticks := 0;
     calls := [] |}.

(** [register_action(pattern, match_type)(func)] *)
Definition register_action (pattern : string) (match_type : MatchType)
  (f : func) : M func :=
  fun w =>
    (Return f,
     set_dicts w (list_set _action_registry
                    (dict_set pattern (f, match_type) (deref _action_registry w))
                    (dicts w))).

(** The default of [match_type]. *)
Definition register_action_default (pattern : string) (f : func) : M func :=
  register_action pattern STATIC f.

(** [action(self, **kw)]: the call is recorded, then the function runs. *)
Definition call (f : func) (self : addr) (kw : kwargs) : M string :=
  fun w =>
    (fbody f self kw,
     set_calls w (calls w ++
                    [{| callee := f; receiver := self; passed := kw |}])).

(** Reading an attribute of [self]. *)
Definition getattr {A : Type} (self : addr) (name : string)
  (field : instance -> A) : M A :=
  fun w =>
    match nth_error (objs w) self with
    | Some o => (Return (field o), w)
    | None => (Raise (AttributeError name), w)
    end.

(** [self.action_registry.items()] *)
Definition registry_items (self : addr) : M registry :=
  a <- getattr self "action_registry" action_registry ;;
  fun w => (Return (deref a w), w).

Section Dispatch.
Context {E : Regex}.

(** The loop of [perform_action] over the items still to visit. *)
Fixpoint perform_action_loop (self : addr) (command : string)
  (items : registry) : M string :=
  match items with
  | [] => ret "Command not recognized"
  | (pattern, (action, match_type)) :: rest =>
      matched <- lift (is_match command pattern match_type) ;;
      if (matched : bool) then call action self []
      else perform_action_loop self command rest
  end.

(** [MatchAndPerformMixin.perform_action] *)
Definition perform_action (self : addr) (command : string) : M string :=
  items <- registry_items self ;;
  perform_action_loop self command items.

End Dispatch.

(** [VoiceCommandMixin.__init__], run on a new instance of class [c]; the
    result is the address of the instance. *)
Definition __init__ (c : string) : M addr :=
  fun w =>
    (Return (List.length (objs w)),
     set_objs w (objs w ++
                   [{| cls := c; action_registry := _action_registry;
                       history := [] |}])).

(** [datetime.datetime.now()] *)
Definition now : M datetime :=
  fun w => (Return (clock w (ticks w)), set_ticks w (S (ticks w))).

(** [self.history.append(x)] *)
Definition history_append (self : addr) (x : CommandHistory) : M unit :=
  fun w =>
    match nth_error (objs w) self with
    | Some o =>
        (Return tt,
         set_objs w (list_set self
                       {| cls := cls o; action_registry := action_registry o;
                          history := history o ++ [x] |}
                       (objs w)))
    | None => (Raise (AttributeError "history"), w)
    end.

(** [VoiceCommandMixin.add_to_history] *)
Definition add_to_history (self : addr) (act : string) (a : kwargs) : M unit :=
  _ <- getattr self "history" history ;;
  t <- now ;;
  history_append self {| action := act; timestamp := t; args := a |}.

(** [VoiceCommandMixin.save_history]: the file is created or replaced as a
    whole.  Files are told apart by their names, and every name can be
    opened for writing. *)
Definition save_history (self : addr) (filename : string) : M unit :=
  h <- getattr self "history" history ;;
  fun w => (Return tt, set_files w (dict_set filename (map asdict h) (files w))).

(** [open(filename, "r")] followed by [json.load(file)] *)
Definition load (filename : string) : M document :=
  fun w =>
    match dict_get filename (files w) with
    | Some d => (Return d, w)
    | None => (Raise (FileNotFoundError filename), w)
    end.

(** [self.action_registry[key]] *)
Definition registry_getitem (self : addr) (key : string)
  : M (func * MatchType) :=
  items <- registry_items self ;;
  match dict_get key items with
  | Some entry => ret entry
  | None => raise (KeyError key)
  end.

(** The loop of [load_and_replay_history] over the commands still to
    replay. *)
Fixpoint replay_loop (self : addr) (commands : document) : M unit :=
  match commands with
  | [] => ret tt
  | command :: rest =>
      entry <- registry_getitem self (saved_action command) ;;
      _ <- call (fst entry) self (saved_args command) ;;
      replay_loop self rest
  end.

(** [VoiceCommandMixin.load_and_replay_history] *)
Definition load_and_replay_history (self : addr) (filename : string)
  : M unit :=
  commands <- load filename ;;
  replay_loop self commands.

(** ** A reference engine for the patterns of the program

    The fragment: literal characters, [.], [\d], an escaped punctuation
    character, groups [( )] and [(?P<name> )], the greedy postfix operators
    [*], [+] and [?], and alternation [|].  Matching is by backtracking,
    leftmost alternative and longest repetition first, as [re] does.  A
    pattern outside the fragment is reported like one that does not
    compile; nothing general is proved from that. *)

Module PyRe.

Inductive re : Type :=
| Empty
| Lit (c : ascii)
| Dot
| Digit
| Cat (a b : re)
| Or (a b : re)
| Star (a : re)
| Group (name : option string) (a : re).

Definition is_digit (c : ascii) : bool :=
  let n := nat_of_ascii c in Nat.leb 48 n && Nat.leb n 57.

Definition is_alnum (c : ascii) : bool :=
  let n := nat_of_ascii c in
  is_digit c || (Nat.leb 65 n && Nat.leb n 90) || (Nat.leb 97 n && Nat.leb n 122).

(** Characters of the syntax this fragment leaves out. *)
Definition unsupported (c : ascii) : bool :=
  existsb (Ascii.eqb c) ["["; "]"; "{"; "}"; "^"; "$"]%char.

Definition is_postfix (c : ascii) : bool :=
  existsb (Ascii.eqb c) ["*"; "+"; "?"]%char.

(** The name of a group, up to the closing [>]. *)
Fixpoint group_name (s : string) : option (string * string) :=
  match s with
  | EmptyString => None
  | String c s' =>
      if Ascii.eqb c ">" then Some (EmptyString, s')
      else if is_alnum c || Ascii.eqb c "_" then
        match group_name s' with
        | Some (n, rest) => Some (String c n, rest)
        | None => None
        end
      else None
  end.

(** A postfix operator applied to what was just read; a second operator in
    a row is either an error or outside the fragment. *)
Definition postfix (a : re) (s : string) : option (re * string) :=
  match s with
  | String q s' =>
      if is_postfix q then
        match s' with
        | String q' _ => if is_postfix q' then None else
            Some (if Ascii.eqb q "*" then Star a
                  else if Ascii.eqb q "+" then Cat a (Star a)
                  else Or a Empty, s')
        | EmptyString =>
            Some (if Ascii.eqb q "*" then Star a
                  else if Ascii.eqb q "+" then Cat a (Star a)
                  else Or a Empty, s')
        end
      else Some (a, s)
  | EmptyString => Some (a, s)
  end.

(** Recursive descent; [fuel] bounds the depth of the descent. *)
Fixpoint parse_alt (fuel : nat) (s : string) : option (re * string) :=
  match fuel with
  | 0 => None
  | S fuel' =>
      match parse_seq fuel' s with
      | Some (a, String "|" rest) =>
          match parse_alt fuel' rest with
          | Some (b, rest') => Some (Or a b, rest')
          | None => None
          end
      | other => other
      end
  end
with parse_seq (fuel : nat) (s : string) : option (re * string) :=
  match fuel with
  | 0 => None
  | S fuel' =>
      match s with
      | EmptyString => Some (Empty, s)
      | String "|" _ => Some (Empty, s)
      | String ")" _ => Some (Empty, s)
      | _ =>
          match parse_atom fuel' s with
          | Some (a, rest) =>
              match postfix a rest with
              | Some (a', rest') =>
                  match parse_seq fuel' rest' with
                  | Some (b, rest'') => Some (Cat a' b, rest'')
                  | None => None
                  end
              | None => None
              end
          | None => None
          end
      end
  end
with parse_atom (fuel : nat) (s : string) : option (re * string) :=
  match fuel with
  | 0 => None
  | S fuel' =>
      match s with
      | EmptyString => None
      | String "(" (String "?" (String "P" (String "<" s'))) =>
          match group_name s' with
          | Some (String c n, body) =>
              match parse_alt fuel' body with
              | Some (a, String ")" rest) =>
                  Some (Group (Some (String c n)) a, rest)
              | _ => None
              end
          | _ => None
          end
      | String "(" (String "?" _) => None
      | String "(" s' =>
          match parse_alt fuel' s' with
          | Some (a, String ")" rest) => Some (Group None a, rest)
          | _ => None
          end
      | String "\" (String c s') =>
          if Ascii.eqb c "d" then Some (Digit, s')
          else if is_alnum c then None
          else Some (Lit c, s')
      | String "\" EmptyString => None
      | String "." s' => Some (Dot, s')
      | String c s' =>
          if is_postfix c || unsupported c then None else Some (Lit c, s')
      end
  end.

(** [re.compile]: the whole pattern must be consumed. *)
Definition compile (pattern : string) : option re :=
  match parse_alt (3 * String.length pattern + 3) pattern with
  | Some (r, EmptyString) => Some r
  | _ => None
  end.

(** The names of the named groups, in the order they open. *)
Fixpoint group_names (r : re) : list string :=
  match r with
  | Cat a b | Or a b => group_names a ++ group_names b
  | Star a => group_names a
  | Group (Some n) a => n :: group_names a
  | Group None a => group_names a
  | _ => []
  end.

Fixpoint take (n : nat) (s : string) : string :=
  match n, s with
  | S n', String c s' => String c (take n' s')
  | _, _ => EmptyString
  end.

(** Backtracking match of [r] at the start of [s], with the captures made
    so far and a continuation for the rest of the pattern.  [n] bounds the
    iterations of a repetition, each of which must consume a character. *)
Fixpoint exec (r : re) (n : nat) (s : string) (caps : groupdict)
  (k : string -> groupdict -> option groupdict) {struct r}
  : option groupdict :=
  match r with
  | Empty => k s caps
  | Lit c =>
      match s with
      | String a s' => if Ascii.eqb a c then k s' caps else None
      | EmptyString => None
      end
  | Dot =>
      match s with
      | String a s' => if Ascii.eqb a "010" then None else k s' caps
      | EmptyString => None
      end
  | Digit =>
      match s with
      | String a s' => if is_digit a then k s' caps else None
      | EmptyString => None
      end
  | Cat a b => exec a n s caps (fun s1 c1 => exec b n s1 c1 k)
  | Or a b =>
      match exec a n s caps k with
      | Some c => Some c
      | None => exec b n s caps k
      end
  | Star a =>
      (fix loop (m : nat) (s : string) (caps : groupdict) : option groupdict :=
         match m with
         | 0 => k s caps
         | S m' =>
             match exec a n s caps
                     (fun s1 c1 =>
                        if Nat.ltb (String.length s1) (String.length s)
                        then loop m' s1 c1 else None) with
             | Some c => Some c
             | None => k s caps
             end
         end) n s caps
  | Group name a =>
      exec a n s caps
        (fun s1 c1 =>
           k s1 match name with
                | Some nm =>
                    dict_set nm
                      (VStr (take (String.length s - String.length s1) s)) c1
                | None => c1
                end)
  end.

(** [pattern.search(command)]: the first position where a match starts. *)
Fixpoint search (r : re) (command : string) : option groupdict :=
  match exec r (S (String.length command)) command
          (map (fun nm => (nm, VNone)) (group_names r))
          (fun _ caps => Some caps) with
  | Some caps => Some caps
  | None =>
      match command with
      | EmptyString => None
      | String _ rest => search r rest
      end
  end.

#[export] Instance engine : Regex :=
  {| compiled := re; re_compile := compile; search_compiled := search |}.

End PyRe.

(** ** The classes of the module *)

(** A [def name(self, p1, ..., pn)] whose body builds a string.  The call
    [name(self, **kw)] binds every parameter from [kw]; a keyword that is
    no parameter, or a parameter left without a value, is a [TypeError]. *)
Definition def (name : string) (params : list string)
  (body : kwargs -> string) : func :=
  {| fname := name;
     fbody := fun _ kw =>
       if forallb (fun k => existsb (String.eqb k) params) (keys kw)
          && forallb (fun p => existsb (String.eqb p) (keys kw)) params
       then Return (body kw)
       else Raise TypeError |}.

(** The value bound to a parameter. *)
Definition arg (kw : kwargs) (name : string) : value :=
  match dict_get name kw with
  | Some v => v
  | None => VNone
  end.

Definition turn_on_light : func :=
  def "turn_on_light" [] (fun _ => "Turning on the light").

Definition play_music : func :=
  def "play_music" [] (fun _ => "Playing music").

Definition make_rectangle : func :=
  def "make_rectangle" ["width"; "height"; "position"]
    (fun kw =>
       ("Making rectangle of width " ++ str (arg kw "width")
        ++ ", height " ++ str (arg kw "height")
        ++ " at " ++ str (arg kw "position"))%string).

Definition rectangle_pattern : string :=
  "make rectangle of width (?P<width>\d+) and height (?P<height>\d+) with top left corner at (?P<position>.+)".

(** The body of [class TestControl]: its two decorators, in order. *)
Definition TestControl_body : M unit :=
  _ <- register_action "turn on the light" SUBSTRING turn_on_light ;;
  _ <- register_action "play music" STARTS_WITH play_music ;;
  ret tt.

(** The body of [class PaintAppControl]. *)
Definition PaintAppControl_body : M unit :=
  _ <- register_action rectangle_pattern DYNAMIC make_rectangle ;;
  ret tt.

(** Importing the module: the registry is created empty, then the two
    class bodies run. *)
Definition import_module : M unit :=
  _ <- TestControl_body ;;
  PaintAppControl_body.

Definition imported (clk : nat -> datetime) : world :=
  snd (import_module (fresh_world clk)).

(** A clock for the examples. *)
Definition noon (n : nat) : datetime :=
  {| year := 2024; month := 1; day := 1; hour := 12; minute := 0;
     second := n; microsecond := 0 |}.

(** [main()]: one [PaintAppControl] instance in the imported module. *)
Definition main : M addr := __init__ "PaintAppControl".

(** ** Notions the properties are stated with *)

Module StrSpec.
Import Str.

(** [w] occurs somewhere in [s]. *)
Definition occurs_in (w s : string) : Prop :=
  exists a b, s = (a ++ w ++ b)%string.

Definition no_space (w : string) : Prop :=
  forall c, In c (chars w) -> is_space c = false.

Definition ends_blank (pre : string) : Prop :=
  pre = "" \/
  exists pre' c, pre = (pre' ++ String c "")%string /\ is_space c = true.

Definition starts_blank (post : string) : Prop :=
  post = "" \/ exists c post', post = String c post' /\ is_space c = true.

(** [w] is a whitespace-delimited token of [p]: a non-empty run without
    whitespace that whitespace or an end of [p] bounds on both sides. *)
Definition token (p w : string) : Prop :=
  w <> "" /\ no_space w /\
  exists pre post,
    p = (pre ++ w ++ post)%string /\ ends_blank pre /\ starts_blank post.

(** The run without whitespace that [s] starts with, and what follows. *)
Fixpoint word_prefix (s : string) : string :=
  match s with
  | String c s' => if is_space c then "" else String c (word_prefix s')
  | EmptyString => ""
  end.

Fixpoint drop_word (s : string) : string :=
  match s with
  | String c s' => if is_space c then s else drop_word s'
  | EmptyString => ""
  end.

End StrSpec.

(** An item of the registry, and what the matcher says of it. *)
Definition entry : Type := string * (func * MatchType).

Definition handler (e : entry) : func := fst (snd e).

Definition accepts {E : Regex} (command : string) (e : entry) : Prop :=
  is_match command (fst e) (snd (snd e)) = Return true.

Definition rejects {E : Regex} (command : string) (e : entry) : Prop :=
  is_match command (fst e) (snd (snd e)) = Return false.

(** A sequence of decorator applications, as a class body or a module
    performs them one after the other. *)
Definition registration : Type := string * MatchType * func.

Fixpoint register_all (rs : list registration) : M unit :=
  match rs with
  | [] => ret tt
  | (pattern, match_type, f) :: rest =>
      _ <- register_action pattern match_type f ;;
      register_all rest
  end.

Definition entry_of (r : registration) : string * (func * MatchType) :=
  let '(pattern, match_type, f) := r in (pattern, (f, match_type)).

(** The call [f(self, **kw)] as it appears in the record of calls. *)
Definition event (f : func) (self : addr) (kw : kwargs) : call_event :=
  {| callee := f; receiver := self; passed := kw |}.

(** The world after one more call was made. *)
Definition called (w : world) (f : func) (self : addr) (kw : kwargs) : world :=
  set_calls w (calls w ++ [event f self kw]).

(** The call that replaying one record makes, when its action is a key of
    the registry. *)
Definition replayed (reg : registry) (self : addr) (x : CommandHistory)
  : list call_event :=
  match dict_get (action x) reg with
  | Some (f, _) => [event f self (args x)]
  | None => []
  end.

(** The handler registered under the action of a record accepts the
    arguments of the record and returns. *)
Definition accepted (reg : registry) (self : addr) (x : CommandHistory)
  : Prop :=
  exists f match_type s,
    dict_get (action x) reg = Some (f, match_type)
    /\ fbody f self (args x) = Return s.

Definition registered (reg : registry) (x : CommandHistory) : Prop :=
  dict_get (action x) reg <> None.

(** Recording commands one after the other through [add_to_history]. *)
Fixpoint record_all (self : addr) (l : list (string * kwargs)) : M unit :=
  match l with
  | [] => ret tt
  | (act, a) :: rest => _ <- add_to_history self act a ;; record_all self rest
  end.

Section Steps.
Context {E : Regex}.

(** What a program built from the operations of the module can do to the
    interpreter state. *)
Inductive step : world -> world -> Prop :=
| step_register pattern match_type f w :
    step w (snd (register_action pattern match_type f w))
| step_init c w :
    step w (snd (__init__ c w))
| step_perform self command w :
    step w (snd (perform_action self command w))
| step_record self act a w :
    step w (snd (add_to_history self act a w))
| step_save self filename w :
    step w (snd (save_history self filename w))
| step_replay self filename w :
    step w (snd (load_and_replay_history self filename w)).

Inductive reachable : world -> Prop :=
| reachable_fresh clk : reachable (fresh_world clk)
| reachable_step w w' : reachable w -> step w w' -> reachable w'.

End Steps.

(** Three handlers told apart by their results, for the examples on
    precedence. *)
Definition handler_A : func := def "A" [] (fun _ => "A fired").
Definition handler_B : func := def "B" [] (fun _ => "B fired").
Definition handler_B0 : func := def "B0" [] (fun _ => "B0 fired").

(** The registry of the precedence example. *)
Definition turn_registrations : list registration :=
  [("turn", SUBSTRING, handler_A); ("turn on", SUBSTRING, handler_B)].

(** The same with the second pattern registered once before, under
    another handler. *)
Definition rebound_registrations : list registration :=
  [("turn on", SUBSTRING, handler_B0);
   ("turn", SUBSTRING, handler_A);
   ("turn on", SUBSTRING, handler_B)].

(** The candidate of the rectangle example and the arguments it carries. *)
Definition rectangle_command : string :=
  "make rectangle of width 10 and height 20 with top left corner at 0,0".

Definition rectangle_args : kwargs :=
  [("width", VStr "10"); ("height", VStr "20"); ("position", VStr "0,0")].

(** The program once [main()] has run: the instance [paint_app] is the
    first object. *)
Definition paint_app : addr := 0.

Definition started (clk : nat -> datetime) : world :=
  snd (main (imported clk)).

(** The state after [paint_app] recorded the given commands. *)
Definition session (clk : nat -> datetime) (l : list (string * kwargs))
  : world :=
  snd (record_all paint_app l (started clk)).

(** Records whose actions are keys of the registry and whose arguments
    fit the handlers. *)
Definition fitting_commands : list (string * kwargs) :=
  [("turn on the light", []);
   (rectangle_pattern, rectangle_args);
   ("play music", [])].

(** Records whose actions are keys of the registry, the first with an
    argument its handler does not take. *)
Definition misfit_commands : list (string * kwargs) :=
  [("turn on the light", [("width", VStr "10")]);
   ("play music", [])].

(** Records of which the second names its action by the name of the
    function, which is no key of the registry. *)
Definition stale_commands : list (string * kwargs) :=
  [("play music", []);
   ("make_rectangle", rectangle_args);
   ("turn on the light", [])].

(** Every instance refers to the dictionary of the module. *)
Definition shares_registry (w : world) : Prop :=
  forall self o,
    nth_error (objs w) self = Some o -> action_registry o = _action_registry.

(** The instance [self] is the object [o] and its registry is [reg];
    calls change neither. *)
Definition stable (self : addr) (o : instance) (reg : registry) (w : world)
  : Prop :=
  nth_error (objs w) self = Some o /\ deref (action_registry o) w = reg.

(** ** Speech input and [process_voice_command]

    The microphone and the recogniser are the [speech_recognition]
    library's; what they do on one call of [recognize_speech_from_mic] is
    given from outside, as an [utterance]: whether capturing the audio
    raised, and what [recognize_google] did with the audio. *)

(** The exceptions of that side; the three first are the ones the code
    names. *)
Inductive speech_exn : Type :=
| RequestError
| UnknownValueError
| KeyboardInterrupt
| OtherSpeechError (name : string).

Record utterance : Type := {
  capture_error : option speech_exn;   (* raised inside the [with] block *)
  transcript : string + speech_exn     (* [recognize_google(audio)] *)
}.

(** [VoiceCommandMixin.recognize_speech_from_mic].  The [with] block is
    outside the [try]: what it raises goes through.  [RequestError] and
    [UnknownValueError] become two fixed strings, [KeyboardInterrupt] is
    passed over and the function ends without [return], that is with
    [None]; any other exception goes through. *)
Definition recognize_speech_from_mic (u : utterance)
  : option string + speech_exn :=
  match capture_error u with
  | Some e => inr e
  | None =>
      match transcript u with
      | inl text => inl (Some text)
      | inr RequestError => inl (Some "API unavailable")
      | inr UnknownValueError => inl (Some "Unable to recognize speech")
      | inr KeyboardInterrupt => inl None
      | inr e => inr e
      end
  end.

(** [str.lower] on one character, restricted to code points below 256:
    the letters A..Z and the capital letters 0xC0..0xDE of Latin-1, the
    multiplication sign 0xD7 apart, move 32 places up. *)
Definition lower_char (c : ascii) : ascii :=
  let n := nat_of_ascii c in
  if (Nat.leb 65 n && Nat.leb n 90)
     || (Nat.leb 192 n && Nat.leb n 222 && negb (Nat.eqb n 215))
  then ascii_of_nat (n + 32)
  else c.

Fixpoint lower (s : string) : string :=
  match s with
  | EmptyString => EmptyString
  | String c s' => String (lower_char c) (lower s')
  end.

(** How a run of [process_voice_command] ends. *)
Inductive ending : Type :=
| Finished
| Raised (e : exn)
| RaisedSpeech (e : speech_exn).

Section Voice.
Context {E : Regex}.

(** [VoiceCommandMixin.process_voice_command]: the lines printed, how the
    run ends and the state it leaves.  [command.lower()] on [None] is an
    [AttributeError]; an exception of the handler leaves the last [print]
    out. *)
Definition process_voice_command (self : addr) (u : utterance) (w : world)
  : list string * ending * world :=
  let greeting := "Please speak a command..." in
  match recognize_speech_from_mic u with
  | inr e => ([greeting], RaisedSpeech e, w)
  | inl None =>
      ([greeting; "You said: None"], Raised (AttributeError "lower"), w)
  | inl (Some command) =>
      let said := ("You said: " ++ command)%string in
      match perform_action self (lower command) w with
      | (Return action_response, w') =>
          ([greeting; said; action_response], Finished, w')
      | (Raise e, w') => ([greeting; said], Raised e, w')
      end
  end.

End Voice.

(** ** [CommandHistory.to_json]

    The text [json.dumps] produces with its default settings: strings
    between quotes with [ensure_ascii] escapes, [None] as [null], the items
    of an object separated by a comma and a space, key and value by a
    colon and a space. *)

Definition quote : ascii := ascii_of_nat 34.
Definition backslash : ascii := ascii_of_nat 92.

Definition hex_digit (n : nat) : ascii :=
  nth n ["0"; "1"; "2"; "3"; "4"; "5"; "6"; "7"; "8"; "9";
         "a"; "b"; "c"; "d"; "e"; "f"]%char "0"%char.

(** One character of a string, as [json] writes it: the quote, the
    backslash and five control characters have a short escape, the other
    characters outside SPACE..~ are written [\u00xx], the rest stand for
    themselves. *)
Definition json_escape_char (c : ascii) : string :=
  let n := nat_of_ascii c in
  let short x := String backslash (String x EmptyString) in
  if Nat.eqb n 34 then short quote
  else if Nat.eqb n 92 then short backslash
  else if Nat.eqb n 8 then short "b"%char
  else if Nat.eqb n 12 then short "f"%char
  else if Nat.eqb n 10 then short "n"%char
  else if Nat.eqb n 13 then short "r"%char
  else if Nat.eqb n 9 then short "t"%char
  else if Nat.leb 32 n && Nat.leb n 126 then String c EmptyString
  else String backslash
         (String "u" (String "0" (String "0"
            (String (hex_digit (n / 16))
               (String (hex_digit (n mod 16)) EmptyString))))).

Fixpoint json_escape (s : string) : string :=
  match s with
  | EmptyString => EmptyString
  | String c s' => (json_escape_char c ++ json_escape s')%string
  end.

Definition json_string (s : string) : string :=
  String quote (json_escape s ++ String quote EmptyString).

Definition json_value (v : value) : string :=
  match v with
  | VNone => "null"
  | VStr s => json_string s
  end.

(** The items of an object, given with their values already written. *)
Fixpoint json_items (items : list (string * string)) : string :=
  match items with
  | [] => EmptyString
  | [(k, v)] => (json_string k ++ ": " ++ v)%string
  | (k, v) :: rest => (json_string k ++ ": " ++ v ++ ", " ++ json_items rest)%string
  end.

Definition json_object (items : list (string * string)) : string :=
  ("{" ++ json_items items ++ "}")%string.

(** [d.isoformat()]: as [str(d)], with a [T] between date and time. *)
Definition isoformat (d : datetime) : string :=
  pad 4 (year d) ++ "-" ++ pad 2 (month d) ++ "-" ++ pad 2 (day d) ++ "T"
  ++ pad 2 (hour d) ++ ":" ++ pad 2 (minute d) ++ ":" ++ pad 2 (second d)
  ++ (if Nat.eqb (microsecond d) 0 then "" else "." ++ pad 6 (microsecond d)).

(** [CommandHistory.to_json] *)
Definition to_json (command : CommandHistory) : string :=
  json_object
    [("action", json_string (action command));
     ("timestamp", json_string (isoformat (timestamp command)));
     ("args",
      json_object (map (fun kv => (fst kv, json_value (snd kv)))
                     (args command)))].

(** A character between SPACE and ~. *)
Definition printable (c : ascii) : bool :=
  Nat.leb 32 (nat_of_ascii c) && Nat.leb (nat_of_ascii c) 126.

(** ** Further notions for the properties *)

(** A string made of whitespace only. *)
Definition blank (s : string) : Prop :=
  forall c, In c (Str.chars s) -> Str.is_space c = true.


(** The records that recording [l] appends when the clock has been read
    [t] times. *)
Fixpoint records_from (clk : nat -> datetime) (t : nat)
  (l : list (string * kwargs)) : list CommandHistory :=
  match l with
  | [] => []
  | (act, a) :: rest =>
      {| action := act; timestamp := clk t; args := a |}
      :: records_from clk (S t) rest
  end.

(** * Properties *)

(** ** Strings: prefixes, occurrences and tokens *)

Module StrFacts.
Import Str StrSpec.

Lemma sapp_assoc (a b c : string) : ((a ++ b) ++ c = a ++ (b ++ c))%string.
Proof. induction a; simpl; congruence. Qed.

Lemma sapp_nil_r (a : string) : (a ++ "" = a)%string.
Proof. induction a; simpl; congruence. Qed.

Lemma startswith_spec (s p : string) :
  startswith s p = true <-> exists t, s = (p ++ t)%string.
Proof.
  revert s; induction p as [|b p IH]; intros s; simpl.
  - split; [intros _; now exists s | reflexivity].
  - destruct s as [|a s].
    + split; [discriminate | intros [t H]; discriminate].
    + rewrite andb_true_iff, Ascii.eqb_eq, IH. split.
      * intros [-> [t ->]]. eauto.
      * intros [t H]. injection H as -> ->. eauto.
Qed.

Lemma contains_spec (s w : string) :
  contains s w = true <-> occurs_in w s.
Proof.
  unfold occurs_in. induction s as [|c s IH]; simpl.
  - rewrite orb_false_r, startswith_spec. split.
    + intros [t H]. exists "", t. exact H.
    + intros [a [b H]]. destruct a; [|discriminate]. simpl in H. eauto.
  - rewrite orb_true_iff, startswith_spec, IH. split.
    + intros [[t H] | [a [b H]]].
      * exists "", t. exact H.
      * exists (String c a), b. simpl. now rewrite H.
    + intros [a [b H]]. destruct a as [|c' a]; simpl in H.
      * left. eauto.
      * right. injection H as _ H. eauto.
Qed.

Lemma split_space c s : is_space c = true -> split (String c s) = split s.
Proof. intros H. simpl. now rewrite H. Qed.

Lemma split_word c s :
  is_space c = false ->
  split (String c s) = String c (word_prefix s) :: split (drop_word s).
Proof.
  revert c; induction s as [|c' s IH]; intros c H.
  - simpl. now rewrite H.
  - change (split (String c (String c' s)))
      with (if is_space c then split (String c' s)
            else if is_space c' then String c "" :: split (String c' s)
            else match split (String c' s) with
                 | w :: ws => String c w :: ws
                 | [] => [String c ""]
                 end).
    rewrite H. cbn [word_prefix drop_word]. destruct (is_space c') eqn:H'.
    + reflexivity.
    + now rewrite (IH c' H').
Qed.

Lemma word_drop s : (word_prefix s ++ drop_word s)%string = s.
Proof.
  induction s as [|c s IH]; simpl; [reflexivity|].
  destruct (is_space c); simpl; congruence.
Qed.

Lemma drop_word_blank s : starts_blank (drop_word s).
Proof.
  induction s as [|c s IH]; simpl; [now left|].
  destruct (is_space c) eqn:H; [right; eauto | exact IH].
Qed.

Lemma word_prefix_no_space s : no_space (word_prefix s).
Proof.
  induction s as [|c s IH]; simpl; [intros ? []|].
  destruct (is_space c) eqn:H; [intros ? []|].
  intros x [<- | Hx]; auto.
Qed.

Lemma word_prefix_app w post :
  no_space w -> starts_blank post ->
  word_prefix (w ++ post) = w /\ drop_word (w ++ post) = post.
Proof.
  intros Hw Hp. induction w as [|c w IH]; simpl.
  - destruct Hp as [-> | [c [post' [-> Hc]]]]; simpl; [auto|]. now rewrite Hc.
  - rewrite (Hw c (or_introl eq_refl)).
    destruct IH as [-> ->]; [|auto]. intros x Hx. apply Hw. now right.
Qed.

Lemma split_eq c s :
  split (String c s) =
  if is_space c then split s
  else match s with
       | EmptyString => [String c ""]
       | String c' _ =>
           if is_space c' then String c "" :: split s
           else match split s with
                | w :: ws => String c w :: ws
                | [] => [String c ""]
                end
       end.
Proof. reflexivity. Qed.

Lemma split_app_space a d s :
  is_space d = true -> split (a ++ String d s) = split a ++ split s.
Proof.
  intros Hd. induction a as [|c a IH].
  - simpl append. now rewrite split_space.
  - change ((String c a ++ String d s)%string) with (String c (a ++ String d s)).
    rewrite (split_eq c (a ++ String d s)), (split_eq c a).
    destruct (is_space c); [exact IH|].
    destruct a as [|c' a].
    + cbn [append]. rewrite Hd. now rewrite split_space.
    + change ((String c' a ++ String d s)%string)
        with (String c' (a ++ String d s)) in *.
      destruct (is_space c') eqn:Hc'.
      * rewrite ?Hc'. now rewrite IH.
      * rewrite ?Hc'. rewrite IH. rewrite (split_word c' a Hc'). reflexivity.
Qed.

Lemma split_token_head w post :
  w <> "" -> no_space w -> starts_blank post ->
  split (w ++ post) = w :: split post.
Proof.
  intros Hne Hw Hp. destruct w as [|c w]; [congruence|].
  change ((String c w ++ post)%string) with (String c (w ++ post)).
  rewrite split_word by (apply Hw; now left).
  destruct (word_prefix_app w post) as [-> ->]; auto.
  intros x Hx. apply Hw. now right.
Qed.

Lemma token_complete p w : token p w -> In w (split p).
Proof.
  intros (Hne & Hw & pre & post & -> & Hpre & Hpost).
  destruct Hpre as [-> | (pre' & d & -> & Hd)].
  - simpl append. rewrite split_token_head by assumption. now left.
  - rewrite sapp_assoc. simpl append. rewrite split_app_space by assumption.
    rewrite split_token_head by assumption. apply in_or_app. right. now left.
Qed.

Lemma slength_app (a b : string) :
  String.length (a ++ b) = String.length a + String.length b.
Proof. induction a; simpl; congruence. Qed.

Lemma drop_word_length s : String.length (drop_word s) <= String.length s.
Proof.
  induction s as [|c s IH]; simpl; [lia|]. destruct (is_space c); simpl; lia.
Qed.

Lemma token_sound_bounded n : forall p w,
  String.length p <= n -> In w (split p) -> token p w.
Proof.
  induction n as [|n IH]; intros p w Hlen Hin.
  - destruct p; [destruct Hin | simpl in Hlen; lia].
  - destruct p as [|c s]; [destruct Hin|].
    simpl in Hlen. destruct (is_space c) eqn:Hc.
    + rewrite split_space in Hin by assumption.
      destruct (IH s w ltac:(lia) Hin) as (Hne & Hw & pre & post & -> & Hpre & Hpost).
      split; [assumption|]. split; [assumption|].
      exists (String c pre), post. split; [reflexivity|]. split; [|assumption].
      right. destruct Hpre as [-> | (pre' & d & -> & Hd)].
      * exists "", c. auto.
      * exists (String c pre'), d. auto.
    + rewrite split_word in Hin by assumption. destruct Hin as [<- | Hin].
      * split; [discriminate|]. split.
        { intros x [<- | Hx]; [assumption|]. now apply (word_prefix_no_space s). }
        exists "", (drop_word s). split.
        { simpl. now rewrite word_drop. }
        split; [now left | apply drop_word_blank].
      * pose proof (drop_word_length s) as Hl.
        destruct (IH (drop_word s) w ltac:(lia) Hin)
          as (Hne & Hw & pre & post & Heq & Hpre & Hpost).
        split; [assumption|]. split; [assumption|].
        destruct Hpre as [-> | (pre' & d & -> & Hd)].
        { exfalso. simpl in Heq. destruct w as [|x w]; [congruence|].
          destruct (drop_word_blank s) as [H0 | (y & post' & H1 & Hy)].
          - rewrite H0 in Heq. discriminate.
          - rewrite H1 in Heq. injection Heq as -> _.
            rewrite (Hw x (or_introl eq_refl)) in Hy. discriminate. }
        exists (String c (word_prefix s ++ pre') ++ String d "")%string, post.
        split.
        { rewrite <- (word_drop s) at 1. rewrite Heq.
          simpl. f_equal. now rewrite !sapp_assoc. }
        split; [|assumption]. right. eauto.
Qed.

Lemma split_spec p w : In w (split p) <-> token p w.
Proof.
  split; [apply (token_sound_bounded (String.length p)); lia | apply token_complete].
Qed.

End StrFacts.

(** C7.  The [ALL_KEYWORDS] matcher never raises and succeeds exactly when
    every whitespace-delimited token of the pattern occurs somewhere in the
    candidate, whatever the order of the tokens; the pattern
    "turn on light" matches "please turn the light on now" and does not
    match "turn the light". *)
Theorem C7_all_keywords_every_token_occurs :
  (forall (E : Regex) (pattern command : string),
      exists b, is_match command pattern ALL_KEYWORDS = Return b
                /\ (b = true <->
                    forall w, StrSpec.token pattern w ->
                              StrSpec.occurs_in w command))
  /\ is_match (E := PyRe.engine) "please turn the light on now"
       "turn on light" ALL_KEYWORDS = Return true
  /\ is_match (E := PyRe.engine) "turn the light"
       "turn on light" ALL_KEYWORDS = Return false.
Proof.
  split; [|split; reflexivity].
  intros E pattern command. eexists. split; [reflexivity|].
  rewrite forallb_forall. split.
  - intros H w Hw. apply StrFacts.contains_spec, H, StrFacts.split_spec, Hw.
  - intros H w Hw. apply StrFacts.contains_spec, H, StrFacts.split_spec, Hw.
Qed.

(** ** Facts on dictionaries *)

Lemma dict_get_set_same {V : Type} (k : string) (v : V) d :
  dict_get k (dict_set k v d) = Some v.
Proof.
  induction d as [|[k' v'] d IH]; simpl.
  - now rewrite String.eqb_refl.
  - destruct (String.eqb k k') eqn:Hk; simpl; rewrite Hk; auto.
Qed.

Lemma dict_get_set_other {V : Type} (k k0 : string) (v : V) d :
  k0 <> k -> dict_get k0 (dict_set k v d) = dict_get k0 d.
Proof.
  intros Hne. induction d as [|[k' v'] d IH]; simpl.
  - apply String.eqb_neq in Hne. now rewrite Hne.
  - destruct (String.eqb k k') eqn:Hk; simpl.
    + apply String.eqb_eq in Hk. subst k'.
      apply String.eqb_neq in Hne. now rewrite Hne.
    + now rewrite IH.
Qed.

Lemma dict_get_in {V : Type} (k : string) (d : list (string * V)) :
  dict_get k d <> None <-> In k (keys d).
Proof.
  induction d as [|[k' v'] d IH]; simpl.
  - split; [congruence | tauto].
  - destruct (String.eqb k k') eqn:Hk.
    + apply String.eqb_eq in Hk. split; [auto | congruence].
    + apply String.eqb_neq in Hk. rewrite IH. split; [auto|].
      intros [H|H]; [congruence | exact H].
Qed.

(** Assigning to a key that is present leaves the order of the keys as it
    is; a new key goes last. *)
Lemma keys_dict_set {V : Type} (k : string) (v : V) d :
  keys (dict_set k v d) = if in_dec string_dec k (keys d) then keys d
                          else keys d ++ [k].
Proof.
  induction d as [|[k' v'] d IH]; simpl; [reflexivity|].
  destruct (String.eqb k k') eqn:Hk; simpl.
  - apply String.eqb_eq in Hk. subst k'.
    destruct (string_dec k k); [|congruence].
    reflexivity.
  - apply String.eqb_neq in Hk. rewrite IH.
    destruct (string_dec k' k); [congruence|].
    destruct (in_dec string_dec k (keys d)); reflexivity.
Qed.

Lemma dict_set_fresh {V : Type} (k : string) (v : V) d :
  ~ In k (keys d) -> dict_set k v d = d ++ [(k, v)].
Proof.
  induction d as [|[k' v'] d IH]; simpl; [reflexivity|].
  intros Hn. destruct (String.eqb k k') eqn:Hk.
  - apply String.eqb_eq in Hk. subst k'. tauto.
  - rewrite IH; [reflexivity | tauto].
Qed.

(** ** Matching and dispatch *)

Section DispatchFacts.
Context {E : Regex}.

Lemma is_match_raises command pattern match_type e :
  is_match command pattern match_type = Raise e ->
  e = ReError /\ match_type = SUBSTRING /\ re_compile pattern = None.
Proof.
  unfold is_match, re_search.
  destruct match_type; simpl; try discriminate.
  - destruct (Str.startswith _ _); discriminate.
  - destruct (re_compile pattern); [|intros [= <-]; auto].
    destruct (search_compiled _ _); discriminate.
Qed.

Lemma is_match_total command pattern match_type :
  (match_type = SUBSTRING -> re_compile pattern <> None) ->
  exists b, is_match command pattern match_type = Return b.
Proof.
  intros H. destruct (is_match command pattern match_type) as [b|e] eqn:Hm.
  - eauto.
  - apply is_match_raises in Hm. destruct Hm as (_ & Hs & Hc). now apply H in Hs.
Qed.

Lemma registry_items_valid self o w :
  nth_error (objs w) self = Some o ->
  registry_items self w = (Return (deref (action_registry o) w), w).
Proof.
  intros H. unfold registry_items, bind, getattr. now rewrite H.
Qed.

Lemma loop_rejected self command items w :
  Forall (rejects command) items ->
  perform_action_loop self command items w
  = (Return "Command not recognized", w).
Proof.
  induction 1 as [|[p [f mt]] items Hr _ IH]; simpl; [reflexivity|].
  unfold rejects in Hr. simpl in Hr. unfold bind, lift. rewrite Hr. exact IH.
Qed.

Lemma loop_first self command pre e post w :
  Forall (rejects command) pre -> accepts command e ->
  perform_action_loop self command (pre ++ e :: post) w
  = (fbody (handler e) self [], called w (handler e) self []).
Proof.
  intros Hpre He. induction Hpre as [|[p [f mt]] pre Hr _ IH]; simpl.
  - destruct e as [p [f mt]]. unfold accepts in He. simpl in He.
    unfold bind, lift. rewrite He. reflexivity.
  - unfold rejects in Hr. simpl in Hr. unfold bind, lift. rewrite Hr. exact IH.
Qed.

Lemma loop_raise self command pre e post x w :
  Forall (rejects command) pre ->
  is_match command (fst e) (snd (snd e)) = Raise x ->
  perform_action_loop self command (pre ++ e :: post) w = (Raise x, w).
Proof.
  intros Hpre He. induction Hpre as [|[p [f mt]] pre Hr _ IH]; simpl.
  - destruct e as [p [f mt]]. simpl in He.
    unfold bind, lift. rewrite He. reflexivity.
  - unfold rejects in Hr. simpl in Hr. unfold bind, lift. rewrite Hr. exact IH.
Qed.

(** The first item the matcher does not reject, if there is one. *)
Lemma first_not_rejected command (items : registry) :
  Forall (rejects command) items \/
  exists pre e post,
    items = pre ++ e :: post /\ Forall (rejects command) pre /\
    (accepts command e \/
     exists x, is_match command (fst e) (snd (snd e)) = Raise x).
Proof.
  induction items as [|e items IH]; [left; constructor|].
  destruct (is_match command (fst e) (snd (snd e))) as [[|]|x] eqn:Hm.
  - right. exists [], e, items. repeat split; auto.
  - destruct IH as [IH | (pre & e' & post & -> & Hpre & He')].
    + left. constructor; assumption.
    + right. exists (e :: pre), e', post. repeat split; auto.
  - right. exists [], e, items. repeat split; eauto.
Qed.

End DispatchFacts.

Lemma perform_action_valid {E : Regex} self o command w :
  nth_error (objs w) self = Some o ->
  perform_action self command w
  = perform_action_loop self command (deref (action_registry o) w) w.
Proof.
  intros H. unfold perform_action, bind. now rewrite (registry_items_valid _ _ _ H).
Qed.

Lemma nth_error_before {A : Type} (pre : list A) e post i x :
  nth_error (pre ++ e :: post) i = Some x -> i < List.length pre -> In x pre.
Proof.
  intros H Hi. rewrite nth_error_app1 in H by assumption.
  eapply nth_error_In; eassumption.
Qed.

Lemma not_both {E : Regex} command e : accepts command e -> rejects command e -> False.
Proof. unfold accepts, rejects. congruence. Qed.

(** ** Registration *)

Lemma register_action_spec pattern match_type f w :
  dicts w <> [] ->
  fst (register_action pattern match_type f w) = Return f
  /\ deref _action_registry (snd (register_action pattern match_type f w))
     = dict_set pattern (f, match_type) (deref _action_registry w).
Proof.
  intros H. split; [reflexivity|].
  unfold register_action, deref, _action_registry. simpl.
  destruct (dicts w); [congruence | reflexivity].
Qed.

Lemma register_all_fresh_gen rs : forall w,
  dicts w <> [] ->
  NoDup (keys (deref _action_registry w) ++ map (fun r => fst (fst r)) rs) ->
  dicts (snd (register_all rs w)) <> [] /\
  deref _action_registry (snd (register_all rs w))
  = deref _action_registry w ++ map entry_of rs.
Proof.
  induction rs as [|[[p mt] f] rs IH]; intros w Hw Hnd; simpl.
  - now rewrite app_nil_r.
  - unfold bind. simpl.
    destruct (register_action_spec p mt f w Hw) as [_ Hreg].
    set (w1 := snd (register_action p mt f w)) in *.
    change (set_dicts w _) with w1.
    assert (Hfresh : ~ In p (keys (deref _action_registry w))).
    { apply NoDup_remove_2 in Hnd. intros Hin. apply Hnd.
      apply in_or_app. now left. }
    rewrite (dict_set_fresh _ _ _ Hfresh) in Hreg.
    assert (Hw1 : dicts w1 <> []).
    { unfold w1, register_action. simpl. destruct (dicts w); [congruence | discriminate]. }
    destruct (IH w1 Hw1) as [Hd Hr].
    + rewrite Hreg. unfold keys in *. rewrite map_app, <- app_assoc. exact Hnd.
    + split; [exact Hd|]. rewrite Hr, Hreg, <- app_assoc. reflexivity.
Qed.

(** ** Dispatch *)




(** C3, as the code has it.  Dispatch invokes the handler of the first
    entry, in the iteration order of the registry, whose matcher succeeds,
    every entry before it being rejected; of two entries that both match,
    the one selected stands no later than the first of them.  The
    iteration order is the registration order when the registered patterns
    are distinct; registering a pattern again replaces its handler and
    kind where the pattern stands.  With "turn" registered before
    "turn on", the candidate "turn on the light" fires the handler of
    "turn". *)
Theorem C3_first_match_in_iteration_order :
  (forall (E : Regex) w self o command pre e post,
      nth_error (objs w) self = Some o ->
      deref (action_registry o) w = pre ++ e :: post ->
      Forall (rejects command) pre -> accepts command e ->
      perform_action self command w
      = (fbody (handler e) self [], called w (handler e) self []))
  /\ (forall (E : Regex) w self o command i j ei ej,
         nth_error (objs w) self = Some o ->
         i < j ->
         nth_error (deref (action_registry o) w) i = Some ei ->
         nth_error (deref (action_registry o) w) j = Some ej ->
         accepts command ei -> accepts command ej ->
         perform_action self command w = (Raise ReError, w)
         \/ exists k ek,
             k <= i
             /\ nth_error (deref (action_registry o) w) k = Some ek
             /\ accepts command ek
             /\ Forall (rejects command)
                  (firstn k (deref (action_registry o) w))
             /\ perform_action self command w
                = (fbody (handler ek) self [], called w (handler ek) self []))
  /\ (forall clk rs,
         NoDup (map (fun r => fst (fst r)) rs) ->
         deref _action_registry (snd (register_all rs (fresh_world clk)))
         = map entry_of rs)
  /\ (forall pattern match_type f w,
         In pattern (keys (deref _action_registry w)) ->
         keys (deref _action_registry
                 (snd (register_action pattern match_type f w)))
         = keys (deref _action_registry w)
         /\ dict_get pattern
              (deref _action_registry
                 (snd (register_action pattern match_type f w)))
            = Some (f, match_type))
  /\ (forall clk,
         let w := snd (__init__ "TestControl"
                         (snd (register_all turn_registrations
                                 (fresh_world clk)))) in
         perform_action (E := PyRe.engine) 0 "turn on the light" w
         = (Return "A fired", called w handler_A 0 [])).
Proof.
  split; [|split; [|split; [|split]]].
  - intros E w self o command pre e post Ho Hitems Hpre He.
    rewrite (perform_action_valid _ _ _ _ Ho), Hitems.
    now apply loop_first.
  - intros E w self o command i j ei ej Ho Hij Hi Hj Hei Hej.
    rewrite (perform_action_valid _ _ _ _ Ho).
    destruct (first_not_rejected command (deref (action_registry o) w))
      as [Hall | (pre & e & post & Hitems & Hpre & He)].
    + exfalso. apply (not_both command ei Hei).
      rewrite Forall_forall in Hall. apply Hall.
      eapply nth_error_In; eassumption.
    + assert (Hk : List.length pre <= i).
      { destruct (le_lt_dec (List.length pre) i) as [H|H]; [exact H|exfalso].
        rewrite Hitems in Hi.
        apply (not_both command ei Hei).
        rewrite Forall_forall in Hpre. apply Hpre.
        eapply nth_error_before; eassumption. }
      destruct He as [He | [x He]].
      * right. exists (List.length pre), e.
        split; [exact Hk|]. rewrite Hitems.
        split; [now rewrite nth_error_app2, Nat.sub_diag by lia|].
        split; [exact He|].
        split.
        { rewrite firstn_app, Nat.sub_diag, firstn_all. simpl.
          now rewrite app_nil_r. }
        now apply loop_first.
      * left. rewrite Hitems.
        destruct (is_match_raises _ _ _ _ He) as [-> _].
        now apply loop_raise.
  - intros clk rs Hnd.
    destruct (register_all_fresh_gen rs (fresh_world clk)) as [_ H].
    + discriminate.
    + exact Hnd.
    + exact H.
  - intros pattern match_type f w Hin.
    assert (Hw : dicts w <> []).
    { unfold deref, _action_registry in Hin.
      destruct (dicts w); [destruct Hin | discriminate]. }
    destruct (register_action_spec pattern match_type f w Hw) as [_ ->].
    rewrite keys_dict_set, dict_get_set_same.
    destruct (in_dec string_dec pattern (keys (deref _action_registry w)));
      [auto | contradiction].
  - intros clk. reflexivity.
Qed.

Lemma C3_witness :
  perform_action (E := PyRe.engine) paint_app "play music and turn on the light"
    (started noon)
  = (Return "Turning on the light", called (started noon) turn_on_light paint_app []).
Proof.
  eapply (proj1 C3_first_match_in_iteration_order _ (started noon) paint_app _
            "play music and turn on the light" []
            ("turn on the light", (turn_on_light, SUBSTRING))).
  - reflexivity.
  - reflexivity.
  - constructor.
  - reflexivity.
Defined.

(** Against C3 as stated: [handler_A] is registered before [handler_B],
    both are entries of the registry and both match "turn on the light",
    yet dispatch invokes [handler_B], because its pattern was registered
    once before and kept its place. *)
Lemma C3_counterexample_rebound_pattern :
  let w := snd (__init__ "TestControl"
                  (snd (register_all rebound_registrations
                          (fresh_world noon)))) in
  nth_error rebound_registrations 1 = Some ("turn", SUBSTRING, handler_A)
  /\ nth_error rebound_registrations 2
     = Some ("turn on", SUBSTRING, handler_B)
  /\ dict_get "turn" (deref _action_registry w) = Some (handler_A, SUBSTRING)
  /\ dict_get "turn on" (deref _action_registry w)
     = Some (handler_B, SUBSTRING)
  /\ accepts (E := PyRe.engine) "turn on the light"
       ("turn", (handler_A, SUBSTRING))
  /\ accepts (E := PyRe.engine) "turn on the light"
       ("turn on", (handler_B, SUBSTRING))
  /\ perform_action (E := PyRe.engine) 0 "turn on the light" w
     = (Return "B fired", called w handler_B 0 [])
  /\ fst (perform_action (E := PyRe.engine) 0 "turn on the light" w)
     <> fbody handler_A 0 [].
Proof.
  cbv zeta. repeat split. discriminate.
Qed.

(** ** The kinds the matcher leaves out *)

Lemma is_match_dynamic {E : Regex} command pattern :
  is_match command pattern DYNAMIC = Return false.
Proof. reflexivity. Qed.

Lemma is_match_static {E : Regex} command pattern :
  is_match command pattern STATIC = Return false.
Proof. reflexivity. Qed.

(** C1, on the code.  The registry of the module holds the rectangle
    pattern under [make_rectangle] with kind [DYNAMIC]; the pattern finds
    width "10", height "20" and position "0,0" in the candidate, and
    [make_rectangle] called with these three arguments returns its
    sentence; dispatching the candidate nevertheless returns
    "Command not recognized" and calls nothing, the matcher having no
    branch for [DYNAMIC]. *)
Theorem C1_rectangle_command_not_dispatched :
  forall clk,
    dict_get rectangle_pattern (deref _action_registry (started clk))
    = Some (make_rectangle, DYNAMIC)
    /\ re_search (E := PyRe.engine) rectangle_pattern rectangle_command
       = Return (Some rectangle_args)
    /\ fbody make_rectangle paint_app rectangle_args
       = Return "Making rectangle of width 10, height 20 at 0,0"
    /\ is_match (E := PyRe.engine) rectangle_command rectangle_pattern DYNAMIC
       = Return false
    /\ perform_action (E := PyRe.engine) paint_app rectangle_command
         (started clk)
       = (Return "Command not recognized", started clk).
Proof.
  intros clk. repeat split.
Qed.

(** C5, on the code.  The matcher has no branch for [STATIC], the default
    kind of [register_action]: it reports no match for every pattern and
    candidate, also when the candidate is the pattern itself, where both
    containment and equality hold. *)
Theorem C5_static_never_matches :
  (forall (E : Regex) command pattern,
      is_match command pattern STATIC = Return false)
  /\ (forall pattern f w,
         register_action_default pattern f w
         = register_action pattern STATIC f w)
  /\ is_match (E := PyRe.engine) "play music" "play music" STATIC
     = Return false
  /\ Str.contains "play music" "play music" = true
  /\ String.eqb "play music" "play music" = true.
Proof.
  repeat split.
Qed.

(** C8, as the code has it.  Registration checks nothing: whatever the
    pattern and the kind, [register_action] returns the function and
    stores the entry.  A pattern of a kind other than [SUBSTRING] is never
    compiled, so its matcher always returns, and for [DYNAMIC] it returns
    false.  When the [SUBSTRING] patterns of the registry compile, no
    matcher raises at dispatch: the result is the sentinel, or what the
    handler of the first matching entry does. *)
Theorem C8_no_pattern_check_at_registration :
  (forall pattern match_type f w,
      dicts w <> [] ->
      fst (register_action pattern match_type f w) = Return f
      /\ dict_get pattern
           (deref _action_registry
              (snd (register_action pattern match_type f w)))
         = Some (f, match_type))
  /\ (forall (E : Regex) command pattern match_type,
         match_type <> SUBSTRING ->
         exists b, is_match command pattern match_type = Return b)
  /\ (forall (E : Regex) command pattern,
         is_match command pattern DYNAMIC = Return false)
  /\ (forall (E : Regex) w self o command,
         nth_error (objs w) self = Some o ->
         (forall pattern f,
             In (pattern, (f, SUBSTRING)) (deref (action_registry o) w) ->
             re_compile pattern <> None) ->
         perform_action self command w
         = (Return "Command not recognized", w)
         \/ exists e,
             In e (deref (action_registry o) w)
             /\ accepts command e
             /\ perform_action self command w
                = (fbody (handler e) self [], called w (handler e) self [])).
Proof.
  split; [|split; [|split]].
  - intros pattern match_type f w Hw.
    destruct (register_action_spec pattern match_type f w Hw) as [H1 H2].
    split; [exact H1|]. rewrite H2. apply dict_get_set_same.
  - intros E command pattern match_type Hmt.
    apply is_match_total. intros H. contradiction.
  - intros E command pattern. reflexivity.
  - intros E w self o command Ho Hcompile.
    rewrite (perform_action_valid _ _ _ _ Ho).
    destruct (first_not_rejected command (deref (action_registry o) w))
      as [Hall | (pre & e & post & Hitems & Hpre & [He | [x He]])].
    + left. now apply loop_rejected.
    + right. exists e. rewrite Hitems.
      split; [apply in_or_app; right; now left|].
      split; [exact He|]. now apply loop_first.
    + exfalso. destruct (is_match_raises _ _ _ _ He) as (_ & Hk & Hc).
      destruct e as [p [f mt]]. simpl in *. subst mt.
      apply (Hcompile p f); [|exact Hc].
      rewrite Hitems. apply in_or_app. right. now left.
Qed.

Lemma C8_witness :
  fst (register_action "((" DYNAMIC make_rectangle (started noon))
  = Return make_rectangle
  /\ dict_get "(("
       (deref _action_registry
          (snd (register_action "((" DYNAMIC make_rectangle (started noon))))
     = Some (make_rectangle, DYNAMIC).
Proof.
  apply (proj1 C8_no_pattern_check_at_registration). discriminate.
Defined.

(** Against C8 as stated: the pattern "(" does not compile, yet
    registering it as a [DYNAMIC] pattern succeeds and leaves the entry in
    the registry; registered as a [SUBSTRING] pattern, it makes dispatch
    raise [re.error]. *)
Lemma C8_counterexample_malformed_pattern_registered :
  re_compile (Regex := PyRe.engine) "(" = None
  /\ fst (register_action "(" DYNAMIC make_rectangle (fresh_world noon))
     = Return make_rectangle
  /\ dict_get "("
       (deref _action_registry
          (snd (register_action "(" DYNAMIC make_rectangle
                  (fresh_world noon))))
     = Some (make_rectangle, DYNAMIC)
  /\ fst (perform_action (E := PyRe.engine) 0 "turn on the light"
            (snd (__init__ "TestControl"
                    (snd (register_action "(" SUBSTRING handler_A
                            (fresh_world noon))))))
     = Raise ReError.
Proof.
  repeat split.
Qed.

(** ** Saving and replaying *)

Lemma set_calls_same w : set_calls w (calls w) = w.
Proof. now destruct w. Qed.

Lemma registry_getitem_valid self o key w :
  nth_error (objs w) self = Some o ->
  registry_getitem self key w
  = match dict_get key (deref (action_registry o) w) with
    | Some e => (Return e, w)
    | None => (Raise (KeyError key), w)
    end.
Proof.
  intros H. unfold registry_getitem, bind.
  rewrite (registry_items_valid _ _ _ H).
  now destruct (dict_get key _).
Qed.

Lemma save_history_valid self o filename w :
  nth_error (objs w) self = Some o ->
  save_history self filename w
  = (Return tt,
     set_files w (dict_set filename (map asdict (history o)) (files w))).
Proof.
  intros H. unfold save_history, bind, getattr. now rewrite H.
Qed.

Lemma load_saved filename d w :
  load filename (set_files w (dict_set filename d (files w)))
  = (Return d, set_files w (dict_set filename d (files w))).
Proof.
  unfold load. simpl. now rewrite dict_get_set_same.
Qed.

(** Replaying a saved history runs the loop on its records. *)
Lemma replay_saved self o filename w :
  nth_error (objs w) self = Some o ->
  load_and_replay_history self filename (snd (save_history self filename w))
  = replay_loop self (map asdict (history o))
      (snd (save_history self filename w)).
Proof.
  intros H. rewrite (save_history_valid _ _ _ _ H). simpl.
  unfold load_and_replay_history, bind. now rewrite load_saved.
Qed.

Section ReplayLoop.
Variables (self : addr) (o : instance) (reg : registry).

Lemma stable_called w f kw : stable self o reg w -> stable self o reg (called w f self kw).
Proof. intros H. exact H. Qed.

Lemma replay_step x rest f match_type w :
  stable self o reg w ->
  dict_get (action x) reg = Some (f, match_type) ->
  replay_loop self (map asdict (x :: rest)) w
  = match fbody f self (args x) with
    | Return _ =>
        replay_loop self (map asdict rest) (called w f self (args x))
    | Raise e => (Raise e, called w f self (args x))
    end.
Proof.
  intros [Ho Hreg] Hx. simpl. unfold bind at 1.
  rewrite (registry_getitem_valid _ _ _ _ Ho), Hreg. simpl. rewrite Hx.
  unfold bind, call. simpl.
  now destruct (fbody f self (args x)).
Qed.

Lemma replayed_registered x f match_type :
  dict_get (action x) reg = Some (f, match_type) ->
  replayed reg self x = [event f self (args x)].
Proof. intros H. unfold replayed. now rewrite H. Qed.

Lemma replay_accepted hs : forall w,
  stable self o reg w ->
  Forall (accepted reg self) hs ->
  replay_loop self (map asdict hs) w
  = (Return tt, set_calls w (calls w ++ flat_map (replayed reg self) hs)).
Proof.
  induction hs as [|x hs IH]; intros w Hw Hall.
  - simpl. now rewrite app_nil_r, set_calls_same.
  - inversion Hall as [|? ? (f & mt & s & Hx & Hs) Hrest]; subst.
    rewrite (replay_step x hs f mt w Hw Hx), Hs.
    rewrite (IH _ (stable_called w f (args x) Hw) Hrest).
    cbn [flat_map]. rewrite (replayed_registered x f mt Hx).
    unfold called. simpl. now rewrite <- app_assoc.
Qed.

Lemma replay_stops pre r post : forall w,
  stable self o reg w ->
  Forall (registered reg) pre ->
  dict_get (action r) reg = None ->
  exists e n,
    n <= List.length pre
    /\ replay_loop self (map asdict (pre ++ r :: post)) w
       = (Raise e,
          set_calls w
            (calls w ++ flat_map (replayed reg self) (firstn n pre)))
    /\ (Forall (accepted reg self) pre ->
        e = KeyError (action r) /\ n = List.length pre).
Proof.
  induction pre as [|x pre IH]; intros w Hw Hreg Hr.
  - exists (KeyError (action r)), 0. split; [simpl; lia|]. split; [|auto].
    destruct Hw as [Ho Hd]. simpl. unfold bind at 1.
    rewrite (registry_getitem_valid _ _ _ _ Ho), Hd. simpl. rewrite Hr.
    now rewrite app_nil_r, set_calls_same.
  - inversion Hreg as [|? ? Hx Hrest]; subst.
    unfold registered in Hx.
    destruct (dict_get (action x) reg) as [[f mt]|] eqn:Hget; [|congruence].
    change ((x :: pre) ++ r :: post) with (x :: (pre ++ r :: post)).
    rewrite (replay_step x (pre ++ r :: post) f mt w Hw Hget).
    destruct (fbody f self (args x)) as [s|e] eqn:Hs.
    + destruct (IH _ (stable_called w f (args x) Hw) Hrest Hr)
        as (e & n & Hn & Heq & Hacc).
      exists e, (S n). split; [simpl; lia|]. split.
      * rewrite Heq. cbn [firstn flat_map].
        rewrite (replayed_registered x f mt Hget).
        unfold called. simpl. now rewrite <- app_assoc.
      * intros Hall. inversion Hall; subst.
        destruct Hacc as [-> ->]; auto.
    + exists e, 1. split; [simpl; lia|]. split.
      * cbn [firstn flat_map]. rewrite (replayed_registered x f mt Hget).
        now rewrite app_nil_r.
      * intros Hall. inversion Hall as [|? ? (f' & mt' & s' & Hx' & Hs') _]; subst.
        rewrite Hget in Hx'. injection Hx' as <- <-. congruence.
Qed.

Lemma replayed_length hs :
  Forall (registered reg) hs ->
  List.length (flat_map (replayed reg self) hs) = List.length hs
  /\ map passed (flat_map (replayed reg self) hs) = map args hs
  /\ map (fun ev => Some (callee ev)) (flat_map (replayed reg self) hs)
     = map (fun x => option_map fst (dict_get (action x) reg)) hs.
Proof.
  induction 1 as [|x hs Hx _ IH]; [auto|].
  unfold registered in Hx.
  destruct (dict_get (action x) reg) as [[f mt]|] eqn:Hget; [|congruence].
  cbn [flat_map]. rewrite (replayed_registered x f mt Hget).
  destruct IH as (H1 & H2 & H3). simpl. rewrite H1, H2, H3, Hget. auto.
Qed.

End ReplayLoop.

Lemma accepted_registered reg self x : accepted reg self x -> registered reg x.
Proof. intros (f & mt & s & H & _). unfold registered. congruence. Qed.

(** C4, as the code has it.  When every record of the history names a key
    of the registry and the handler found there accepts the arguments of
    the record and returns, saving the history and replaying the file
    returns normally after exactly one call per record, in the order of
    the records, each call passing the arguments of its record to the
    handler registered under its action. *)
Theorem C4_replay_of_saved_history :
  forall w self o filename,
    nth_error (objs w) self = Some o ->
    Forall (accepted (deref (action_registry o) w) self) (history o) ->
    load_and_replay_history self filename (snd (save_history self filename w))
    = (Return tt,
       set_calls (snd (save_history self filename w))
         (calls w
          ++ flat_map (replayed (deref (action_registry o) w) self)
               (history o)))
    /\ List.length
         (flat_map (replayed (deref (action_registry o) w) self) (history o))
       = List.length (history o)
    /\ map passed
         (flat_map (replayed (deref (action_registry o) w) self) (history o))
       = map args (history o)
    /\ map (fun ev => Some (callee ev))
         (flat_map (replayed (deref (action_registry o) w) self) (history o))
       = map (fun x =>
                option_map fst
                  (dict_get (action x) (deref (action_registry o) w)))
           (history o).
Proof.
  intros w self o filename Ho Hall. split.
  - rewrite (replay_saved _ _ _ _ Ho).
    rewrite (replay_accepted self o (deref (action_registry o) w) (history o)).
    + rewrite (save_history_valid _ _ _ _ Ho). reflexivity.
    + rewrite (save_history_valid _ _ _ _ Ho). split; [exact Ho | reflexivity].
    + exact Hall.
  - apply replayed_length.
    eapply Forall_impl; [|exact Hall]. intros x. apply accepted_registered.
Qed.

Lemma C4_witness :
  fst (load_and_replay_history paint_app "command_history.json"
         (snd (save_history paint_app "command_history.json"
                 (session noon fitting_commands))))
  = Return tt.
Proof.
  destruct (C4_replay_of_saved_history (session noon fitting_commands)
              paint_app
              {| cls := "PaintAppControl"; action_registry := _action_registry;
                 history :=
                   [{| action := "turn on the light"; timestamp := noon 0;
                       args := [] |};
                    {| action := rectangle_pattern; timestamp := noon 1;
                       args := rectangle_args |};
                    {| action := "play music"; timestamp := noon 2;
                       args := [] |}] |}
              "command_history.json") as [H _].
  - reflexivity.
  - repeat (constructor; [do 3 eexists; split; reflexivity|]). constructor.
  - rewrite H. reflexivity.
Defined.

(** Against C4 as stated: both records name keys of the registry, yet the
    replay makes one call only, which raises [TypeError] because
    [turn_on_light] takes no [width]; the second record is not replayed. *)
Lemma C4_counterexample_handler_refuses_arguments :
  let w := session noon misfit_commands in
  let r := load_and_replay_history paint_app "command_history.json"
             (snd (save_history paint_app "command_history.json" w)) in
  option_map (fun o => map action (history o)) (nth_error (objs w) paint_app)
  = Some ["turn on the light"; "play music"]
  /\ dict_get "turn on the light" (deref _action_registry w)
     = Some (turn_on_light, SUBSTRING)
  /\ dict_get "play music" (deref _action_registry w)
     = Some (play_music, STARTS_WITH)
  /\ fst r = Raise TypeError
  /\ calls (snd r) = [event turn_on_light paint_app [("width", VStr "10")]].
Proof.
  cbv zeta. repeat split.
Qed.

Lemma first_unregistered (reg : registry) (hs : list CommandHistory) :
  Exists (fun x => dict_get (action x) reg = None) hs ->
  exists pre r post,
    hs = pre ++ r :: post
    /\ Forall (registered reg) pre
    /\ dict_get (action r) reg = None.
Proof.
  induction hs as [|x hs IH]; intros H; [inversion H|].
  destruct (dict_get (action x) reg) as [e|] eqn:Hx.
  - inversion H as [? ? Hx' | ? ? Hrest]; subst; [congruence|].
    destruct (IH Hrest) as (pre & r & post & -> & Hpre & Hr).
    exists (x :: pre), r, post. repeat split; [|exact Hr].
    constructor; [unfold registered; congruence | exact Hpre].
  - exists [], x, hs. repeat split; [constructor | exact Hx].
Qed.

(** C9.  When the saved history holds a record whose action is no key of
    the registry, the replay follows the abort policy: it ends by raising
    at the first such record, nothing is skipped and no record after it is
    replayed.  The calls made are those of a prefix of the records before
    it; when the handlers of all of these return, they are all called and
    the exception is [KeyError] on the unknown action.  The outcome is a
    function of the state, the same on every run. *)
Theorem C9_replay_aborts_at_unknown_action :
  forall w self o filename,
    nth_error (objs w) self = Some o ->
    Exists (fun x => dict_get (action x) (deref (action_registry o) w) = None)
      (history o) ->
    exists pre r post e n,
      history o = pre ++ r :: post
      /\ Forall (registered (deref (action_registry o) w)) pre
      /\ dict_get (action r) (deref (action_registry o) w) = None
      /\ n <= List.length pre
      /\ load_and_replay_history self filename
           (snd (save_history self filename w))
         = (Raise e,
            set_calls (snd (save_history self filename w))
              (calls w
               ++ flat_map (replayed (deref (action_registry o) w) self)
                    (firstn n pre)))
      /\ (Forall (accepted (deref (action_registry o) w) self) pre ->
          e = KeyError (action r) /\ n = List.length pre).
Proof.
  intros w self o filename Ho Hex.
  destruct (first_unregistered _ _ Hex) as (pre & r & post & Hh & Hpre & Hr).
  exists pre, r, post.
  rewrite (replay_saved _ _ _ _ Ho), Hh.
  destruct (replay_stops self o (deref (action_registry o) w) pre r post
              (snd (save_history self filename w)))
    as (e & n & Hn & Heq & Hacc).
  - rewrite (save_history_valid _ _ _ _ Ho). split; [exact Ho | reflexivity].
  - exact Hpre.
  - exact Hr.
  - exists e, n. rewrite (save_history_valid _ _ _ _ Ho) in *. auto 7.
Qed.

Lemma C9_witness :
  exists e,
    fst (load_and_replay_history paint_app "command_history.json"
           (snd (save_history paint_app "command_history.json"
                   (session noon stale_commands))))
    = Raise e.
Proof.
  destruct (C9_replay_aborts_at_unknown_action (session noon stale_commands)
              paint_app
              {| cls := "PaintAppControl"; action_registry := _action_registry;
                 history :=
                   [{| action := "play music"; timestamp := noon 0;
                       args := [] |};
                    {| action := "make_rectangle"; timestamp := noon 1;
                       args := rectangle_args |};
                    {| action := "turn on the light"; timestamp := noon 2;
                       args := [] |}] |}
              "command_history.json")
    as (pre & r & post & e & n & _ & _ & _ & _ & Heq & _).
  - reflexivity.
  - apply Exists_cons_tl, Exists_cons_hd. reflexivity.
  - exists e. rewrite Heq. reflexivity.
Defined.

(** The stale history, replayed: [play_music] is called, then the replay
    raises [KeyError] on "make_rectangle" and the third record is left. *)
Example stale_history_replay :
  let r := load_and_replay_history paint_app "command_history.json"
             (snd (save_history paint_app "command_history.json"
                     (session noon stale_commands))) in
  fst r = Raise (KeyError "make_rectangle")
  /\ calls (snd r) = [event play_music paint_app []].
Proof. cbv zeta. split; reflexivity. Qed.

(** ** One registry for all instances *)

Lemma nth_error_list_set {A : Type} (l : list A) : forall n x i y,
  nth_error (list_set n x l) i = Some y ->
  (i = n /\ y = x) \/ nth_error l i = Some y.
Proof.
  induction l as [|a l IH]; intros n x i y H.
  - destruct n; simpl in H; destruct i; discriminate.
  - destruct n as [|n]; destruct i as [|i]; simpl in H.
    + left. split; congruence.
    + now right.
    + now right.
    + destruct (IH n x i y H) as [[-> ->] | H']; [left | right]; auto.
Qed.

Lemma list_set_not_nil {A : Type} (l : list A) n x :
  l <> [] -> list_set n x l <> [].
Proof. destruct l; [congruence|]. destruct n; discriminate. Qed.

Lemma loop_only_calls {E : Regex} self command items w :
  exists c, snd (perform_action_loop self command items w) = set_calls w c.
Proof.
  destruct (first_not_rejected command items)
    as [H | (pre & e & post & -> & Hpre & [He | [x He]])].
  - rewrite loop_rejected by assumption. exists (calls w).
    now rewrite set_calls_same.
  - rewrite loop_first by assumption. eexists. reflexivity.
  - rewrite (loop_raise _ _ _ _ _ _ _ Hpre He). exists (calls w).
    now rewrite set_calls_same.
Qed.

Lemma perform_action_only_calls {E : Regex} self command w :
  exists c, snd (perform_action self command w) = set_calls w c.
Proof.
  destruct (nth_error (objs w) self) as [o|] eqn:H.
  - rewrite (perform_action_valid _ _ _ _ H). apply loop_only_calls.
  - unfold perform_action, registry_items, bind, getattr. rewrite H.
    exists (calls w). now rewrite set_calls_same.
Qed.

Lemma replay_loop_only_calls self commands : forall w,
  exists c, snd (replay_loop self commands w) = set_calls w c.
Proof.
  induction commands as [|x rest IH]; intros w.
  - exists (calls w). now rewrite set_calls_same.
  - simpl. unfold bind at 1. unfold registry_getitem, registry_items, bind, getattr.
    destruct (nth_error (objs w) self) as [o|];
      [|exists (calls w); now rewrite set_calls_same].
    destruct (dict_get (saved_action x) (deref (action_registry o) w))
      as [[f mt]|]; simpl;
      [|exists (calls w); now rewrite set_calls_same].
    unfold call. simpl. destruct (fbody f self (saved_args x)).
    + destruct (IH (set_calls w (calls w ++ [event f self (saved_args x)])))
        as [c Hc].
      exists c. unfold event in *. rewrite Hc. reflexivity.
    + eexists. reflexivity.
Qed.

Lemma replay_only_calls self filename w :
  exists c, snd (load_and_replay_history self filename w) = set_calls w c.
Proof.
  unfold load_and_replay_history, bind, load.
  destruct (dict_get filename (files w)).
  - apply replay_loop_only_calls.
  - exists (calls w). now rewrite set_calls_same.
Qed.

(** The invariant of the heap: the dictionary of the module exists and
    every instance refers to it. *)
Lemma step_invariant {E : Regex} w w' :
  step w w' ->
  dicts w <> [] /\ shares_registry w ->
  dicts w' <> [] /\ shares_registry w'.
Proof.
  intros Hstep [Hd Hs]. destruct Hstep.
  - split; [now apply list_set_not_nil | exact Hs].
  - split; [exact Hd|]. intros self o H. simpl in H.
    destruct (le_lt_dec (List.length (objs w)) self) as [Hl | Hl].
    + rewrite nth_error_app2 in H by exact Hl.
      destruct (self - List.length (objs w)) as [|k]; simpl in H.
      * now injection H as <-.
      * destruct k; discriminate.
    + rewrite nth_error_app1 in H by exact Hl. now apply (Hs self).
  - destruct (perform_action_only_calls self command w) as [c ->].
    split; assumption.
  - unfold add_to_history, bind, getattr, now, history_append.
    destruct (nth_error (objs w) self) as [o|] eqn:Ho; simpl.
    + rewrite Ho. simpl. split; [exact Hd|].
      intros i y H. simpl in H.
      destruct (nth_error_list_set _ _ _ _ _ H) as [[-> ->] | H1].
      * simpl. exact (Hs self o Ho).
      * exact (Hs i y H1).
    + split; assumption.
  - unfold save_history, bind, getattr.
    destruct (nth_error (objs w) self); simpl; split; assumption.
  - destruct (replay_only_calls self filename w) as [c ->].
    split; assumption.
Qed.

Lemma reachable_invariant {E : Regex} w :
  reachable w -> dicts w <> [] /\ shares_registry w.
Proof.
  induction 1 as [clk | w w' _ IH Hstep].
  - split; [discriminate|]. intros [|self] o H; discriminate.
  - exact (step_invariant w w' Hstep IH).
Qed.

Lemma started_reachable {E : Regex} clk : reachable (started clk).
Proof.
  unfold started, main.
  apply reachable_step with (w := imported clk); [|apply step_init].
  unfold imported.
  apply reachable_step
    with (w := snd (TestControl_body (fresh_world clk)));
    [|apply (step_register rectangle_pattern DYNAMIC make_rectangle)].
  apply reachable_step
    with (w := snd (register_action "turn on the light" SUBSTRING
                      turn_on_light (fresh_world clk)));
    [|apply (step_register "play music" STARTS_WITH play_music)].
  apply reachable_step with (w := fresh_world clk);
    [apply reachable_fresh | apply step_register].
Qed.

(** C10.  In every state the operations of the module can reach, each
    instance, whatever its class, refers to the one dictionary of the
    module: a new instance is given that reference, the items an instance
    dispatches on are those of the module dictionary, and an action
    registered after the instance was created is found through it.  The
    [PaintAppControl] instance of [main] dispatches the two patterns that
    [TestControl] registered. *)
Theorem C10_instances_share_module_registry :
  (forall (E : Regex) w, reachable w -> shares_registry w)
  /\ (forall c w,
         nth_error (objs (snd (__init__ c w))) (List.length (objs w))
         = Some {| cls := c; action_registry := _action_registry;
                   history := [] |})
  /\ (forall (E : Regex) w self o command,
         reachable w -> nth_error (objs w) self = Some o ->
         registry_items self w = (Return (deref _action_registry w), w)
         /\ perform_action self command w
            = perform_action_loop self command (deref _action_registry w) w)
  /\ (forall (E : Regex) w self o pattern match_type f,
         reachable w -> nth_error (objs w) self = Some o ->
         fst (registry_getitem self pattern
                (snd (register_action pattern match_type f w)))
         = Return (f, match_type))
  /\ (forall clk,
         option_map cls (nth_error (objs (started clk)) paint_app)
         = Some "PaintAppControl"
         /\ perform_action (E := PyRe.engine) paint_app
              "please turn on the light" (started clk)
            = (Return "Turning on the light",
               called (started clk) turn_on_light paint_app [])
         /\ perform_action (E := PyRe.engine) paint_app "play music now"
              (started clk)
            = (Return "Playing music",
               called (started clk) play_music paint_app [])).
Proof.
  split; [|split; [|split; [|split]]].
  - intros E w Hw. apply (reachable_invariant w Hw).
  - intros c w. simpl. now rewrite nth_error_app2, Nat.sub_diag by lia.
  - intros E w self o command Hw Ho.
    destruct (reachable_invariant w Hw) as [_ Hs].
    rewrite (registry_items_valid _ _ _ Ho), (perform_action_valid _ _ _ _ Ho).
    now rewrite (Hs self o Ho).
  - intros E w self o pattern match_type f Hw Ho.
    destruct (reachable_invariant w Hw) as [Hd Hs].
    rewrite (registry_getitem_valid self o pattern) by exact Ho.
    rewrite (Hs self o Ho).
    destruct (register_action_spec pattern match_type f w Hd) as [_ H].
    rewrite H. now rewrite dict_get_set_same.
  - intros clk. repeat split.
Qed.

Lemma C10_witness :
  registry_items paint_app (started noon)
  = (Return (deref _action_registry (started noon)), started noon).
Proof.
  apply (proj1 (proj2 (proj2 C10_instances_share_module_registry))
           PyRe.engine (started noon) paint_app
           {| cls := "PaintAppControl"; action_registry := _action_registry;
              history := [] |} "play music").
  - apply started_reachable.
  - reflexivity.
Defined.

(** The fitting history, replayed: three calls, in the order of the
    records, each with the arguments of its record. *)
Example fitting_history_replay :
  let r := load_and_replay_history paint_app "command_history.json"
             (snd (save_history paint_app "command_history.json"
                     (session noon fitting_commands))) in
  fst r = Return tt
  /\ calls (snd r)
     = [event turn_on_light paint_app [];
        event make_rectangle paint_app rectangle_args;
        event play_music paint_app []].
Proof. cbv zeta. split; reflexivity. Qed.

(** * Further properties of the code *)

(** ** The matcher *)

(** X1.  The [STARTS_WITH] matcher never raises and succeeds exactly when
    the candidate begins with the pattern, taken literally. *)
Theorem starts_with_matches_literal_prefix :
  forall (E : Regex) (command pattern : string),
    exists b,
      is_match command pattern STARTS_WITH = Return b
      /\ (b = true <-> exists rest, command = (pattern ++ rest)%string).
Proof.
  intros E command pattern. unfold is_match. simpl.
  destruct (Str.startswith command pattern) eqn:H.
  - exists true. split; [reflexivity|]. split; [|reflexivity].
    intros _. now apply StrFacts.startswith_spec.
  - exists false. split; [reflexivity|]. split; [discriminate|].
    intros H'. apply StrFacts.startswith_spec in H'. congruence.
Qed.

(** X2.  The matcher raises in one case only: the kind is [SUBSTRING] and
    the pattern does not compile; the exception is then [re.error],
    whatever the candidate.  A [SUBSTRING] pattern that compiles matches
    exactly when the search finds a match somewhere in the candidate. *)
Theorem matcher_raises_only_on_uncompilable_substring :
  forall (E : Regex) (command pattern : string),
    (forall match_type e,
        is_match command pattern match_type = Raise e <->
        match_type = SUBSTRING /\ re_compile pattern = None /\ e = ReError)
    /\ (forall r,
           re_compile pattern = Some r ->
           is_match command pattern SUBSTRING
           = Return (truthy (search_compiled r command))).
Proof.
  intros E command pattern. split.
  - intros match_type e. split.
    + intros H. destruct (is_match_raises _ _ _ _ H) as (-> & -> & Hc). auto.
    + intros (-> & Hc & ->). unfold is_match, re_search. simpl. now rewrite Hc.
  - intros r Hr. unfold is_match, re_search. simpl. rewrite Hr.
    now destruct (search_compiled r command).
Qed.

Lemma matcher_raises_witness :
  is_match (E := PyRe.engine) "turn on the light" "turn (on" SUBSTRING
  = Raise ReError.
Proof.
  apply (proj1 (matcher_raises_only_on_uncompilable_substring PyRe.engine
                  "turn on the light" "turn (on")).
  repeat split.
Defined.

Lemma split_blank pattern : blank pattern -> Str.split pattern = [].
Proof.
  induction pattern as [|c p IH]; intros H; [reflexivity|].
  rewrite StrFacts.split_space by (apply H; now left).
  apply IH. intros x Hx. apply H. now right.
Qed.

(** X3.  A pattern without any token matches every candidate: under
    [ALL_KEYWORDS] a pattern that is empty or made of whitespace only,
    under [STARTS_WITH] the empty pattern.  Such an entry, once reached,
    is selected whatever the command, so that no entry after it is ever
    reached. *)
Theorem tokenless_pattern_matches_every_command :
  forall (E : Regex) (command : string),
    (forall pattern,
        blank pattern -> is_match command pattern ALL_KEYWORDS = Return true)
    /\ is_match command "" STARTS_WITH = Return true
    /\ (forall w self o pre pattern f post,
           nth_error (objs w) self = Some o ->
           deref (action_registry o) w
           = pre ++ (pattern, (f, ALL_KEYWORDS)) :: post ->
           blank pattern ->
           Forall (rejects command) pre ->
           perform_action self command w
           = (fbody f self [], called w f self [])).
Proof.
  intros E command.
  assert (Hblank : forall pattern, blank pattern ->
                     is_match command pattern ALL_KEYWORDS = Return true).
  { intros pattern H. unfold is_match. simpl. now rewrite (split_blank _ H). }
  split; [exact Hblank|]. split; [reflexivity|].
  intros w self o pre pattern f post Ho Hitems Hb Hpre.
  rewrite (perform_action_valid _ _ _ _ Ho), Hitems.
  apply (loop_first self command pre (pattern, (f, ALL_KEYWORDS)) post w Hpre).
  apply Hblank, Hb.
Qed.

Lemma tokenless_pattern_witness :
  is_match (E := PyRe.engine) "stop" "   " ALL_KEYWORDS = Return true.
Proof.
  apply (proj1 (tokenless_pattern_matches_every_command PyRe.engine "stop")).
  intros c [<- | [<- | [<- | []]]]; reflexivity.
Defined.

(** ** Dispatch *)

(** X4.  Whatever the instance and the command, dispatch itself ends in
    one of three ways: the sentinel with no call, [re.error] with no call,
    or the call of one handler, that of an entry of the registry whose
    matcher accepts the command, with no argument besides [self]; the
    outcome of that call is the outcome of the dispatch. *)
Theorem dispatch_calls_at_most_one_handler :
  forall (E : Regex) w self o command,
    nth_error (objs w) self = Some o ->
    perform_action self command w = (Return "Command not recognized", w)
    \/ perform_action self command w = (Raise ReError, w)
    \/ exists e,
        In e (deref (action_registry o) w)
        /\ accepts command e
        /\ perform_action self command w
           = (fbody (handler e) self [], called w (handler e) self []).
Proof.
  intros E w self o command Ho.
  rewrite (perform_action_valid _ _ _ _ Ho).
  destruct (first_not_rejected command (deref (action_registry o) w))
    as [Hall | (pre & e & post & Hitems & Hpre & [He | [x He]])].
  - left. now apply loop_rejected.
  - right. right. exists e. rewrite Hitems.
    split; [apply in_or_app; right; now left|].
    split; [exact He|]. now apply loop_first.
  - right. left. rewrite Hitems.
    destruct (is_match_raises _ _ _ _ He) as [-> _].
    now apply loop_raise.
Qed.

Lemma dispatch_calls_witness :
  perform_action (E := PyRe.engine) paint_app "play music" (started noon)
  = (Return "Command not recognized", started noon)
  \/ perform_action (E := PyRe.engine) paint_app "play music" (started noon)
     = (Raise ReError, started noon)
  \/ exists e,
      In e (deref _action_registry (started noon))
      /\ accepts (E := PyRe.engine) "play music" e
      /\ perform_action (E := PyRe.engine) paint_app "play music"
           (started noon)
         = (fbody (handler e) paint_app [],
            called (started noon) (handler e) paint_app []).
Proof.
  apply (dispatch_calls_at_most_one_handler PyRe.engine (started noon)
           paint_app
           {| cls := "PaintAppControl"; action_registry := _action_registry;
              history := [] |} "play music").
  reflexivity.
Defined.

Lemma def_without_arguments name params body self :
  params <> [] -> fbody (def name params body) self [] = Raise TypeError.
Proof.
  intros H. destruct params as [|p params]; [congruence|]. reflexivity.
Qed.

(** X5.  Dispatch passes no captured argument: when the entry selected
    holds a function whose signature has a required parameter besides
    [self] (all parameters of a [def] are required here, as those of
    [make_rectangle] are), the call is made and raises [TypeError],
    whatever the candidate that selected it. *)
Theorem dispatch_of_handler_with_parameters_raises :
  forall (E : Regex) w self o command pre pattern name params body
         match_type post,
    nth_error (objs w) self = Some o ->
    deref (action_registry o) w
    = pre ++ (pattern, (def name params body, match_type)) :: post ->
    Forall (rejects command) pre ->
    accepts command (pattern, (def name params body, match_type)) ->
    params <> [] ->
    perform_action self command w
    = (Raise TypeError, called w (def name params body) self []).
Proof.
  intros E w self o command pre pattern name params body match_type post
         Ho Hitems Hpre He Hparams.
  pose proof (loop_first (E := E) self command pre _ post w Hpre He) as H.
  rewrite (perform_action_valid _ _ _ _ Ho), Hitems.
  refine (eq_trans H _).
  unfold handler. simpl fst. simpl snd.
  now rewrite (def_without_arguments name params body self Hparams).
Qed.

Lemma dispatch_of_handler_with_parameters_witness :
  let w := snd (__init__ "PaintAppControl"
                  (snd (register_action "make rectangle" STARTS_WITH
                          make_rectangle (fresh_world noon)))) in
  perform_action (E := PyRe.engine) 0 "make rectangle of width 10" w
  = (Raise TypeError, called w make_rectangle 0 []).
Proof.
  cbv zeta.
  apply (dispatch_of_handler_with_parameters_raises PyRe.engine _ 0
           {| cls := "PaintAppControl"; action_registry := _action_registry;
              history := [] |}
           "make rectangle of width 10" [] "make rectangle"
           "make_rectangle" ["width"; "height"; "position"] _ STARTS_WITH []).
  - reflexivity.
  - reflexivity.
  - constructor.
  - reflexivity.
  - discriminate.
Defined.

(** ** Recording *)

Lemma nth_error_list_set_same {A : Type} (l : list A) : forall n x y,
  nth_error l n = Some y -> nth_error (list_set n x l) n = Some x.
Proof.
  induction l as [|a l IH]; intros [|n] x y H; simpl in *;
    try discriminate; [reflexivity | eauto].
Qed.

Lemma nth_error_list_set_other {A : Type} (l : list A) : forall n x i,
  i <> n -> nth_error (list_set n x l) i = nth_error l i.
Proof.
  induction l as [|a l IH]; intros [|n] x [|i] H; simpl;
    try reflexivity; try congruence.
  apply IH. congruence.
Qed.

Lemma add_to_history_valid self o act a w :
  nth_error (objs w) self = Some o ->
  add_to_history self act a w
  = (Return tt,
     set_objs (set_ticks w (S (ticks w)))
       (list_set self
          {| cls := cls o; action_registry := action_registry o;
             history := history o
                        ++ [{| action := act; timestamp := clock w (ticks w);
                               args := a |}] |}
          (objs w))).
Proof.
  intros H. unfold add_to_history, bind, getattr, now, history_append.
  rewrite H. simpl. now rewrite H.
Qed.

(** X6.  Recording a command appends one record to the history of the
    instance it is called on, stamped with the reading of the clock, and
    leaves the records already there in place; the history of every other
    instance, the registry, the files and the record of calls are
    unchanged. *)
Theorem add_to_history_appends_to_own_history_only :
  forall w self o act a,
    nth_error (objs w) self = Some o ->
    fst (add_to_history self act a w) = Return tt
    /\ nth_error (objs (snd (add_to_history self act a w))) self
       = Some {| cls := cls o; action_registry := action_registry o;
                 history :=
                   history o
                   ++ [{| action := act; timestamp := clock w (ticks w);
                          args := a |}] |}
    /\ (forall other,
           other <> self ->
           nth_error (objs (snd (add_to_history self act a w))) other
           = nth_error (objs w) other)
    /\ dicts (snd (add_to_history self act a w)) = dicts w
    /\ files (snd (add_to_history self act a w)) = files w
    /\ calls (snd (add_to_history self act a w)) = calls w
    /\ ticks (snd (add_to_history self act a w)) = S (ticks w).
Proof.
  intros w self o act a Ho. rewrite (add_to_history_valid _ _ _ _ _ Ho).
  simpl. split; [reflexivity|]. split.
  - eapply nth_error_list_set_same; eassumption.
  - split; [|auto]. intros other Hne. now apply nth_error_list_set_other.
Qed.

Lemma add_to_history_witness :
  option_map (fun o => List.length (history o))
    (nth_error
       (objs (snd (add_to_history paint_app "play music" []
                     (session noon fitting_commands))))
       paint_app)
  = Some 4.
Proof.
  destruct (add_to_history_appends_to_own_history_only
              (session noon fitting_commands) paint_app
              {| cls := "PaintAppControl"; action_registry := _action_registry;
                 history :=
                   [{| action := "turn on the light"; timestamp := noon 0;
                       args := [] |};
                    {| action := rectangle_pattern; timestamp := noon 1;
                       args := rectangle_args |};
                    {| action := "play music"; timestamp := noon 2;
                       args := [] |}] |}
              "play music" [] eq_refl) as (_ & H & _).
  rewrite H. reflexivity.
Defined.

(** X7.  Commands recorded one after the other end up in the history in
    the order they were recorded, behind the records already there, each
    with the next reading of the clock. *)
Theorem recorded_commands_keep_their_order :
  forall l w self o,
    nth_error (objs w) self = Some o ->
    fst (record_all self l w) = Return tt
    /\ nth_error (objs (snd (record_all self l w))) self
       = Some {| cls := cls o; action_registry := action_registry o;
                 history :=
                   history o ++ records_from (clock w) (ticks w) l |}
    /\ ticks (snd (record_all self l w)) = ticks w + List.length l.
Proof.
  induction l as [|[act a] l IH]; intros w self o Ho.
  - simpl. rewrite app_nil_r. split; [reflexivity|]. split; [|lia].
    rewrite Ho. now destruct o.
  - simpl. unfold bind. rewrite (add_to_history_valid _ _ _ _ _ Ho).
    set (o1 := {| cls := cls o; action_registry := action_registry o;
                  history := history o
                             ++ [{| action := act;
                                    timestamp := clock w (ticks w);
                                    args := a |}] |}).
    set (w1 := set_objs (set_ticks w (S (ticks w)))
                 (list_set self o1 (objs w))).
    assert (H1 : nth_error (objs w1) self = Some o1).
    { unfold w1. simpl. eapply nth_error_list_set_same; eassumption. }
    destruct (IH w1 self o1 H1) as (Hr & Hh & Ht).
    split; [exact Hr|]. split.
    + rewrite Hh. unfold o1, w1. simpl. now rewrite <- app_assoc.
    + rewrite Ht. unfold w1. simpl. lia.
Qed.

Lemma recorded_commands_witness :
  option_map (fun o => map action (history o))
    (nth_error (objs (session noon stale_commands)) paint_app)
  = Some ["play music"; "make_rectangle"; "turn on the light"].
Proof.
  destruct (recorded_commands_keep_their_order stale_commands (started noon)
              paint_app
              {| cls := "PaintAppControl"; action_registry := _action_registry;
                 history := [] |} eq_refl) as (_ & H & _).
  unfold session. rewrite H. reflexivity.
Defined.

(** ** Replaying *)

Lemma replay_saved_by self other o filename w :
  nth_error (objs w) other = Some o ->
  load_and_replay_history self filename (snd (save_history other filename w))
  = replay_loop self (map asdict (history o))
      (snd (save_history other filename w)).
Proof.
  intros H. rewrite (save_history_valid _ _ _ _ H). simpl.
  unfold load_and_replay_history, bind. now rewrite load_saved.
Qed.

Lemma replay_handler_raises self o reg x post f match_type e pre : forall w,
  stable self o reg w ->
  Forall (accepted reg self) pre ->
  dict_get (action x) reg = Some (f, match_type) ->
  fbody f self (args x) = Raise e ->
  replay_loop self (map asdict (pre ++ x :: post)) w
  = (Raise e,
     set_calls w
       (calls w ++ flat_map (replayed reg self) pre
        ++ [event f self (args x)])).
Proof.
  induction pre as [|y pre IH]; intros w Hst Hpre Hx He.
  - simpl app.
    rewrite (replay_step self o reg x post f match_type w Hst Hx), He.
    reflexivity.
  - inversion Hpre as [|? ? (g & mt & s & Hy & Hs) Hrest]; subst.
    change ((y :: pre) ++ x :: post) with (y :: (pre ++ x :: post)).
    rewrite (replay_step self o reg y (pre ++ x :: post) g mt w Hst Hy), Hs.
    rewrite (IH _ (stable_called self o reg w g (args y) Hst) Hrest Hx He).
    cbn [flat_map]. rewrite (replayed_registered self reg y g mt Hy).
    unfold called. simpl. now rewrite <- !app_assoc.
Qed.

(** X10.  A replay stops at the first record whose handler raises: the
    handlers of the records before it have been called, that one is
    called too, its exception is what the replay raises, and no record
    after it is replayed. *)
Theorem replay_stops_at_first_handler_exception :
  forall w self o filename pre x post f match_type e,
    nth_error (objs w) self = Some o ->
    history o = pre ++ x :: post ->
    Forall (accepted (deref (action_registry o) w) self) pre ->
    dict_get (action x) (deref (action_registry o) w) = Some (f, match_type) ->
    fbody f self (args x) = Raise e ->
    load_and_replay_history self filename (snd (save_history self filename w))
    = (Raise e,
       set_calls (snd (save_history self filename w))
         (calls w
          ++ flat_map (replayed (deref (action_registry o) w) self) pre
          ++ [event f self (args x)])).
Proof.
  intros w self o filename pre x post f match_type e Ho Hh Hpre Hx He.
  rewrite (replay_saved _ _ _ _ Ho), Hh.
  rewrite (replay_handler_raises self o (deref (action_registry o) w)
             x post f match_type e pre); try assumption.
  - rewrite (save_history_valid _ _ _ _ Ho). reflexivity.
  - rewrite (save_history_valid _ _ _ _ Ho). split; [exact Ho | reflexivity].
Qed.

Lemma replay_stops_witness :
  fst (load_and_replay_history paint_app "command_history.json"
         (snd (save_history paint_app "command_history.json"
                 (session noon misfit_commands))))
  = Raise TypeError.
Proof.
  rewrite (replay_stops_at_first_handler_exception
             (session noon misfit_commands) paint_app
             {| cls := "PaintAppControl"; action_registry := _action_registry;
                history :=
                  [{| action := "turn on the light"; timestamp := noon 0;
                      args := [("width", VStr "10")] |};
                   {| action := "play music"; timestamp := noon 1;
                      args := [] |}] |}
             "command_history.json" []
             {| action := "turn on the light"; timestamp := noon 0;
                args := [("width", VStr "10")] |}
             [{| action := "play music"; timestamp := noon 1; args := [] |}]
             turn_on_light SUBSTRING TypeError);
    try reflexivity. constructor.
Defined.

(** X11.  Replay goes by the key and not by the matcher: an entry of kind
    [DYNAMIC] or [STATIC] is rejected by dispatch for every command, yet a
    record whose action is its pattern has its handler called on replay,
    with the arguments of the record. *)
Theorem replay_reaches_handlers_dispatch_cannot :
  forall (E : Regex) w self o filename x f match_type,
    nth_error (objs w) self = Some o ->
    match_type = DYNAMIC \/ match_type = STATIC ->
    dict_get (action x) (deref (action_registry o) w) = Some (f, match_type) ->
    Forall (accepted (deref (action_registry o) w) self) (history o) ->
    In x (history o) ->
    (forall command, rejects command (action x, (f, match_type)))
    /\ In (event f self (args x))
         (calls (snd (load_and_replay_history self filename
                        (snd (save_history self filename w))))).
Proof.
  intros E w self o filename x f match_type Ho Hk Hx Hall Hin. split.
  - intros command. destruct Hk as [-> | ->]; reflexivity.
  - rewrite (replay_saved _ _ _ _ Ho).
    rewrite (replay_accepted self o (deref (action_registry o) w) (history o)).
    + rewrite (save_history_valid _ _ _ _ Ho). simpl.
      apply in_or_app. right. apply in_flat_map. exists x.
      split; [exact Hin|]. rewrite (replayed_registered _ _ x f match_type Hx).
      now left.
    + rewrite (save_history_valid _ _ _ _ Ho). split; [exact Ho | reflexivity].
    + exact Hall.
Qed.

Lemma replay_reaches_witness :
  In (event make_rectangle paint_app rectangle_args)
    (calls (snd (load_and_replay_history paint_app "command_history.json"
                   (snd (save_history paint_app "command_history.json"
                           (session noon fitting_commands)))))).
Proof.
  apply (proj2 (replay_reaches_handlers_dispatch_cannot PyRe.engine
                  (session noon fitting_commands) paint_app
                  {| cls := "PaintAppControl";
                     action_registry := _action_registry;
                     history :=
                       [{| action := "turn on the light"; timestamp := noon 0;
                           args := [] |};
                        {| action := rectangle_pattern; timestamp := noon 1;
                           args := rectangle_args |};
                        {| action := "play music"; timestamp := noon 2;
                           args := [] |}] |}
                  "command_history.json"
                  {| action := rectangle_pattern; timestamp := noon 1;
                     args := rectangle_args |}
                  make_rectangle DYNAMIC eq_refl (or_introl eq_refl) eq_refl
                  ltac:(repeat (constructor;
                                [do 3 eexists; split; reflexivity|]);
                        constructor)
                  ltac:(right; left; reflexivity))).
Defined.

(** X12.  A file saved by one instance can be replayed by another: the
    handlers are looked up in the registry of the replaying instance and
    are passed that instance as [self], one call per record of the
    instance that saved, in order, when these handlers accept the
    arguments. *)
Theorem replay_by_another_instance :
  forall w self other o o' filename,
    nth_error (objs w) self = Some o ->
    nth_error (objs w) other = Some o' ->
    Forall (accepted (deref (action_registry o) w) self) (history o') ->
    load_and_replay_history self filename
      (snd (save_history other filename w))
    = (Return tt,
       set_calls (snd (save_history other filename w))
         (calls w
          ++ flat_map (replayed (deref (action_registry o) w) self)
               (history o'))).
Proof.
  intros w self other o o' filename Ho Ho' Hall.
  rewrite (replay_saved_by self other o' filename w Ho').
  rewrite (replay_accepted self o (deref (action_registry o) w) (history o')).
  - rewrite (save_history_valid _ _ _ _ Ho'). reflexivity.
  - rewrite (save_history_valid _ _ _ _ Ho'). split; [exact Ho | reflexivity].
  - exact Hall.
Qed.

Lemma replay_by_another_instance_witness :
  let w := snd (__init__ "TestControl" (session noon fitting_commands)) in
  map receiver
    (calls (snd (load_and_replay_history 1 "command_history.json"
                   (snd (save_history paint_app "command_history.json" w)))))
  = [1; 1; 1].
Proof.
  cbv zeta.
  rewrite (replay_by_another_instance
             (snd (__init__ "TestControl" (session noon fitting_commands)))
             1 paint_app
             {| cls := "TestControl"; action_registry := _action_registry;
                history := [] |}
             {| cls := "PaintAppControl"; action_registry := _action_registry;
                history :=
                  [{| action := "turn on the light"; timestamp := noon 0;
                      args := [] |};
                   {| action := rectangle_pattern; timestamp := noon 1;
                      args := rectangle_args |};
                   {| action := "play music"; timestamp := noon 2;
                      args := [] |}] |}
             "command_history.json" eq_refl eq_refl).
  - reflexivity.
  - repeat (constructor; [do 3 eexists; split; reflexivity|]). constructor.
Defined.

(** ** The registry *)

Lemma keys_dict_set_NoDup {V : Type} (k : string) (v : V) d :
  NoDup (keys d) -> NoDup (keys (dict_set k v d)).
Proof.
  intros H. rewrite keys_dict_set.
  destruct (in_dec string_dec k (keys d)) as [Hin | Hnin]; [exact H|].
  apply NoDup_app; [exact H | repeat constructor; intros [] |].
  intros x Hx [<- | []]. contradiction.
Qed.

Lemma step_registry {E : Regex} w w' :
  step w w' ->
  dicts w' = dicts w
  \/ exists pattern match_type f,
      w' = snd (register_action pattern match_type f w).
Proof.
  intros Hstep. destruct Hstep.
  - right. eauto.
  - left. reflexivity.
  - left. destruct (perform_action_only_calls self command w) as [c ->].
    reflexivity.
  - left. unfold add_to_history, bind, getattr, now, history_append.
    destruct (nth_error (objs w) self) as [o|] eqn:Ho; simpl;
      [rewrite Ho|]; reflexivity.
  - left. unfold save_history, bind, getattr.
    destruct (nth_error (objs w) self); reflexivity.
  - left. destruct (replay_only_calls self filename w) as [c ->].
    reflexivity.
Qed.

Lemma dict_set_length {V : Type} (k : string) (v : V) d :
  List.length (dict_set k v d)
  = if in_dec string_dec k (keys d) then List.length d
    else S (List.length d).
Proof.
  pose proof (keys_dict_set k v d) as H.
  apply (f_equal (@List.length string)) in H. unfold keys in H at 1.
  rewrite length_map in H. rewrite H.
  destruct (in_dec string_dec k (keys d)); unfold keys.
  - now rewrite length_map.
  - rewrite length_app, length_map. simpl. lia.
Qed.

(** X13.  In every state the operations can reach, no two entries of the
    registry have the same pattern.  Registering under a pattern makes
    that pattern name the new function and kind, leaves what every other
    pattern names as it was, and adds an entry only when the pattern is
    new. *)
Theorem registry_patterns_stay_distinct :
  (forall (E : Regex) w,
      reachable w -> NoDup (keys (deref _action_registry w)))
  /\ (forall pattern match_type f w,
         dicts w <> [] ->
         dict_get pattern
           (deref _action_registry
              (snd (register_action pattern match_type f w)))
         = Some (f, match_type)
         /\ (forall other,
                other <> pattern ->
                dict_get other
                  (deref _action_registry
                     (snd (register_action pattern match_type f w)))
                = dict_get other (deref _action_registry w))
         /\ List.length
              (deref _action_registry
                 (snd (register_action pattern match_type f w)))
            = if in_dec string_dec pattern
                   (keys (deref _action_registry w))
              then List.length (deref _action_registry w)
              else S (List.length (deref _action_registry w))).
Proof.
  split.
  - intros E w Hw. induction Hw as [clk | w w' Hw IH Hstep].
    + constructor.
    + destruct (step_registry w w' Hstep) as [Hd | (p & mt & f & ->)].
      * unfold deref in *. now rewrite Hd.
      * destruct (reachable_invariant w Hw) as [Hne _].
        destruct (register_action_spec p mt f w Hne) as [_ ->].
        now apply keys_dict_set_NoDup.
  - intros pattern match_type f w Hne.
    destruct (register_action_spec pattern match_type f w Hne) as [_ ->].
    split; [apply dict_get_set_same|]. split.
    + intros other Ho. now apply dict_get_set_other.
    + apply dict_set_length.
Qed.

Lemma registry_patterns_witness :
  NoDup (keys (deref _action_registry (started noon))).
Proof.
  apply (proj1 registry_patterns_stay_distinct PyRe.engine).
  apply started_reachable.
Defined.

(** ** Voice commands *)

Lemma lower_char_idempotent c : lower_char (lower_char c) = lower_char c.
Proof. destruct c as [[] [] [] [] [] [] [] []]; reflexivity. Qed.

Lemma lower_idempotent s : lower (lower s) = lower s.
Proof.
  induction s as [|c s IH]; simpl; [reflexivity|].
  now rewrite lower_char_idempotent, IH.
Qed.



Lemma chars_app a b : Str.chars (a ++ b) = Str.chars a ++ Str.chars b.
Proof. induction a as [|c a IH]; simpl; [reflexivity | now rewrite IH]. Qed.





(** X15.  Voice commands are case-insensitive: saying a sentence or the
    same sentence in other letter case ends the same way, with the same
    answer printed and the same calls made; only the line that repeats
    what was said differs. *)
Theorem voice_commands_ignore_letter_case :
  forall (E : Regex) self w (text text' : string),
    lower text = lower text' ->
    let run t := process_voice_command self
                   {| capture_error := None; transcript := inl t |} w in
    snd (fst (run text)) = snd (fst (run text'))
    /\ snd (run text) = snd (run text')
    /\ skipn 2 (fst (fst (run text))) = skipn 2 (fst (fst (run text')))
    /\ run (lower text) = (let '(out, e, w') := run text in
                           ("Please speak a command..."
                            :: ("You said: " ++ lower text)%string
                            :: skipn 2 out, e, w')).
Proof.
  intros E self w text text' H. cbv zeta.
  unfold process_voice_command. simpl. rewrite lower_idempotent, <- H.
  destruct (perform_action self (lower text) w) as [[r|e] w'];
    repeat split.
Qed.

Lemma voice_commands_witness :
  snd (fst (process_voice_command (E := PyRe.engine) paint_app
              {| capture_error := None; transcript := inl "Play Music" |}
              (started noon)))
  = snd (fst (process_voice_command (E := PyRe.engine) paint_app
                {| capture_error := None; transcript := inl "PLAY MUSIC" |}
                (started noon))).
Proof.
  apply (voice_commands_ignore_letter_case PyRe.engine paint_app
           (started noon) "Play Music" "PLAY MUSIC" eq_refl).
Defined.

(** X16.  The failures of the speech side.  An exception raised while the
    audio is captured, [KeyboardInterrupt] included, goes through after
    the greeting alone was printed.  [KeyboardInterrupt] raised by the
    recogniser is passed over, the command is then [None] and the run
    ends with [AttributeError] before any dispatch.  [RequestError] and
    [UnknownValueError] turn into the sentences "API unavailable" and
    "Unable to recognize speech", which are dispatched like a command the
    user said: on a request failure an entry of kind [STARTS_WITH] whose
    pattern is a prefix of "api unavailable" (such as "api") is selected
    when the entries before it reject that sentence. *)
Theorem speech_failures_of_voice_command :
  forall (E : Regex) self w,
    (forall e tr,
        process_voice_command self
          {| capture_error := Some e; transcript := tr |} w
        = (["Please speak a command..."], RaisedSpeech e, w))
    /\ process_voice_command self
         {| capture_error := None; transcript := inr KeyboardInterrupt |} w
       = (["Please speak a command..."; "You said: None"],
          Raised (AttributeError "lower"), w)
    /\ (forall name,
           process_voice_command self
             {| capture_error := None;
                transcript := inr (OtherSpeechError name) |} w
           = (["Please speak a command..."],
              RaisedSpeech (OtherSpeechError name), w))
    /\ process_voice_command self
         {| capture_error := None; transcript := inr RequestError |} w
       = process_voice_command self
           {| capture_error := None; transcript := inl "API unavailable" |} w
    /\ process_voice_command self
         {| capture_error := None; transcript := inr UnknownValueError |} w
       = process_voice_command self
           {| capture_error := None;
              transcript := inl "Unable to recognize speech" |} w
    /\ (forall o pre pattern f post rest,
           nth_error (objs w) self = Some o ->
           deref (action_registry o) w
           = pre ++ (pattern, (f, STARTS_WITH)) :: post ->
           Forall (rejects "api unavailable") pre ->
           "api unavailable" = (pattern ++ rest)%string ->
           snd (process_voice_command self
                  {| capture_error := None; transcript := inr RequestError |}
                  w)
           = called w f self []).
Proof.
  intros E self w. repeat split.
  intros o pre pattern f post rest Ho Hitems Hpre Hp.
  unfold process_voice_command. simpl.
  assert (Hacc : accepts "api unavailable" (pattern, (f, STARTS_WITH))).
  { unfold accepts, is_match. simpl.
    assert (Hs : Str.startswith "api unavailable" pattern = true)
      by (apply StrFacts.startswith_spec; eauto).
    now rewrite Hs. }
  pose proof (loop_first (E := E) self "api unavailable" pre _ post w
                Hpre Hacc) as H.
  rewrite (perform_action_valid _ _ _ _ Ho), Hitems.
  match goal with
  | |- snd (let (_, _) := ?t in _) = _ =>
      replace t with (fbody f self [], called w f self [])
        by (symmetry; exact H)
  end.
  now destruct (fbody f self []).
Qed.

Lemma speech_failures_witness :
  let w := snd (__init__ "TestControl"
                  (snd (register_action "api" STARTS_WITH handler_A
                          (fresh_world noon)))) in
  snd (process_voice_command (E := PyRe.engine) 0
         {| capture_error := None; transcript := inr RequestError |} w)
  = called w handler_A 0 [].
Proof.
  cbv zeta.
  apply (proj2 (proj2 (proj2 (proj2 (proj2
           (speech_failures_of_voice_command PyRe.engine 0
              (snd (__init__ "TestControl"
                      (snd (register_action "api" STARTS_WITH handler_A
                              (fresh_world noon))))))))))
           {| cls := "TestControl"; action_registry := _action_registry;
              history := [] |}
           [] "api" handler_A [] " unavailable" eq_refl eq_refl
           (Forall_nil _) eq_refl).
Defined.

(** ** The JSON text of a record *)

Lemma printable_app (a b : string) :
  forallb printable (Str.chars (a ++ b))
  = forallb printable (Str.chars a) && forallb printable (Str.chars b).
Proof. now rewrite chars_app, forallb_app. Qed.

Lemma json_escape_char_printable c :
  forallb printable (Str.chars (json_escape_char c)) = true.
Proof. destruct c as [[] [] [] [] [] [] [] []]; reflexivity. Qed.

Lemma json_escape_printable s :
  forallb printable (Str.chars (json_escape s)) = true.
Proof.
  induction s as [|c s IH]; [reflexivity|]. simpl json_escape.
  now rewrite printable_app, json_escape_char_printable, IH.
Qed.

Lemma json_string_printable s :
  forallb printable (Str.chars (json_string s)) = true.
Proof.
  unfold json_string. cbn [Str.chars forallb].
  now rewrite printable_app, json_escape_printable.
Qed.

Lemma uint_printable u :
  forallb printable (Str.chars (NilEmpty.string_of_uint u)) = true.
Proof. induction u; simpl; auto. Qed.

Lemma zeros_printable n : forallb printable (Str.chars (zeros n)) = true.
Proof. induction n; simpl; auto. Qed.

Lemma pad_printable width n : forallb printable (Str.chars (pad width n)) = true.
Proof.
  unfold pad. now rewrite printable_app, zeros_printable, uint_printable.
Qed.

Lemma isoformat_printable d :
  forallb printable (Str.chars (isoformat d)) = true.
Proof.
  unfold isoformat. rewrite !printable_app, !pad_printable.
  destruct (Nat.eqb (microsecond d) 0); [reflexivity|].
  now rewrite printable_app, pad_printable.
Qed.

Lemma json_items_printable items :
  Forall (fun kv => forallb printable (Str.chars (snd kv)) = true) items ->
  forallb printable (Str.chars (json_items items)) = true.
Proof.
  induction 1 as [|[k v] items Hv Hrest IH]; [reflexivity|].
  simpl in Hv. destruct items as [|kv items].
  - cbn [json_items]. now rewrite !printable_app, json_string_printable, Hv.
  - change (json_items ((k, v) :: kv :: items))
      with (json_string k ++ ": " ++ v ++ ", " ++ json_items (kv :: items))%string.
    now rewrite !printable_app, json_string_printable, Hv, IH.
Qed.

Lemma json_object_printable items :
  Forall (fun kv => forallb printable (Str.chars (snd kv)) = true) items ->
  forallb printable (Str.chars (json_object items)) = true.
Proof.
  intros H. unfold json_object.
  now rewrite !printable_app, (json_items_printable items H).
Qed.

(** X18.  The JSON text of a record is made of the characters SPACE..~
    only, whatever characters the action and the arguments hold: it has
    no line break, no control character and nothing outside ASCII. *)
Theorem to_json_is_printable_ascii :
  forall command, forallb printable (Str.chars (to_json command)) = true.
Proof.
  intros command. unfold to_json. apply json_object_printable.
  constructor; [apply json_string_printable|].
  constructor; [apply json_string_printable|].
  constructor; [|constructor].
  apply json_object_printable.
  induction (args command) as [|[k v] l IH]; constructor; [|exact IH].
  simpl. destruct v; [reflexivity | apply json_string_printable].
Qed.


